(** * Contacts API: authentication, session and role gates

    A shallow embedding of the authentication part of the contacts
    service (src/services/auth.py, src/services/roles.py,
    src/repository/users.py, src/repository/contacts.py,
    src/routes/auth.py, src/routes/contacts.py) and the properties of
    the login / refresh / confirmation flows, the cached identity
    lookup, the role gate and the ownership filter.

    Conventions of the embedding:
    - time is the number of seconds since the epoch, a [Z]; every
      request handler receives the clock reading [now] of the request
      ([datetime.utcnow()], truncated to seconds as python-jose does
      when it serialises [iat] and [exp]);
    - a handler is a function from the state of the world (the two
      tables, the redis cache, the queue of background mails) to an
      outcome and a new state; a raised Python exception is the left
      injection of the outcome;
    - an ORM instance loaded from the session is a pair of the position
      of its row in the table and the values read from it: assigning an
      attribute and committing rewrites that column of that row. *)

From stdpp Require Import gmap strings list fin_maps pretty.
From Stdlib Require Import ZArith Lia.

Local Open Scope string_scope.
Local Open Scope Z_scope.

(** ** JSON values and Python dictionaries with string keys *)

Inductive JVal : Type :=
  | JStr (s : string)
  | JInt (n : Z)
  | JNull.

#[global] Instance JVal_eq_dec : EqDecision JVal.
Proof. solve_decision. Defined.

(** A [dict] keeps its keys in insertion order; assigning an existing key
    keeps the key's position. *)
Definition dict : Type := list (string * JVal).

Fixpoint dict_get (k : string) (d : dict) : option JVal :=
  match d with
  | [] => None
  | (k', v) :: d' => if String.eqb k k' then Some v else dict_get k d'
  end.

Fixpoint dict_set (k : string) (v : JVal) (d : dict) : dict :=
  match d with
  | [] => [(k, v)]
  | (k', v') :: d' =>
      if String.eqb k k' then (k, v) :: d' else (k', v') :: dict_set k v d'
  end.

(** [d.update(u)] *)
Definition dict_update (d u : dict) : dict :=
  fold_left (fun acc kv => dict_set (fst kv) (snd kv) acc) u d.

(** [str(v)] for the values a claim can hold. *)
Definition py_str (v : JVal) : string :=
  match v with
  | JStr s => s
  | JInt n => pretty n
  | JNull => "None"
  end.

(** ** Exceptions *)

(** src/conf/messages.py is not among the sources: the message constants
    the routes name are kept symbolic. *)
Module messages.
Inductive constant : Type :=
  | ACCOUNT_EXIST
  | EMAIL_NOT_FOUND
  | EMAIL_NOT_CONFIRMED
  | INCORRECT_PASSWORD
  | INVALID_REFRESH_TOKEN
  | USER_NOT_FOUND.
End messages.

Module status.
Definition HTTP_400_BAD_REQUEST : Z := 400.
Definition HTTP_401_UNAUTHORIZED : Z := 401.
Definition HTTP_403_FORBIDDEN : Z := 403.
Definition HTTP_404_NOT_FOUND : Z := 404.
Definition HTTP_409_CONFLICT : Z := 409.
End status.

(** [HTTPException] is what FastAPI turns into a response with that
    status; any other exception leaving a handler is an unhandled error
    (a 500 response). [str e] is the text of an exception, as built by
    [detail=str(e)]. *)
Inductive Exc : Type :=
  | HTTPException (status_code : Z) (detail : Detail)
                  (headers : list (string * string))
  | KeyError (key : string)
  | AttributeError (name : string)
  | JWTError
  | RequestValidationError
with Detail : Type :=
  | text (s : string)
  | message (m : messages.constant)
  | str (e : Exc).

Definition is_HTTPException (e : Exc) : bool :=
  match e with HTTPException _ _ _ => true | _ => false end.

(** ** The tables (src/entity/models.py is not among the sources) *)

(** Modelled from the spec: the role enumeration of section 3 (regular,
    moderator, admin); the code names [Role.admin] and [Role.moderator]. *)
Inductive Role : Type := admin | moderator | regular.

#[global] Instance Role_eq_dec : EqDecision Role.
Proof. solve_decision. Defined.

(** python-jose tokens, symbolically: the compact serialisation of a
    claim set signed with [key] under [alg], or any other string. Two
    tokens are the same string exactly when they are equal here. *)
Inductive Token : Type :=
  | JWS (claims : dict) (key : string) (alg : string)
  | Opaque (s : string).

#[global] Instance Token_eq_dec : EqDecision Token.
Proof. solve_decision. Defined.

(** Modelled from the spec: the user row of section 3, with the columns
    the code reads and writes. *)
Module User.
Record t : Type := mk {
  id : Z;
  username : string;
  email : string;
  password : string;
  avatar : option string;
  refresh_token : option Token;
  confirmed : bool;
  role : Role
}.

Definition set_refresh_token (tok : option Token) (u : t) : t :=
  mk (id u) (username u) (email u) (password u) (avatar u) tok
     (confirmed u) (role u).

Definition set_confirmed (b : bool) (u : t) : t :=
  mk (id u) (username u) (email u) (password u) (avatar u)
     (refresh_token u) b (role u).

Definition set_avatar (a : option string) (u : t) : t :=
  mk (id u) (username u) (email u) (password u) a
     (refresh_token u) (confirmed u) (role u).
End User.

(** Modelled from the spec: the contact row of section 3; [user_id] is the
    owner ([filter_by(user=user)] compares it with [user.id]). *)
Module Contact.
Record t : Type := mk {
  id : Z;
  name : string;
  lastname : string;
  email : string;
  phone : string;
  birthdate : string;
  others_info : string;
  completed : bool;
  created_at : Z;
  updated_at : Z;
  user_id : Z
}.
End Contact.

(** ** The redis cache *)

(** An entry holds the pickled user ([pickle.loads (pickle.dumps u) = u])
    and the instant it expires at, if it has one. *)
Record CacheEntry : Type := {
  value : User.t;
  expire_at : option Z
}.

Module redis.
Definition live (now : Z) (e : CacheEntry) : bool :=
  match expire_at e with
  | None => true
  | Some t => now <? t
  end.

Definition get (k : string) (now : Z) (c : gmap string CacheEntry)
  : option User.t :=
  match c !! k with
  | Some e => if live now e then Some (value e) else None
  | None => None
  end.

(** [SET] drops any time to live the key had. *)
Definition set (k : string) (v : User.t) (c : gmap string CacheEntry)
  : gmap string CacheEntry :=
  <[k := {| value := v; expire_at := None |}]> c.

Definition expire (k : string) (seconds now : Z)
    (c : gmap string CacheEntry) : gmap string CacheEntry :=
  alter (fun e => {| value := value e; expire_at := Some (now + seconds) |})
        k c.
End redis.

(** ** The state of the world and the monad of handlers *)

Record Mail : Type := {
  mail_to : string;
  mail_username : string;
  mail_host : string
}.

Record World : Type := {
  users : list User.t;
  contacts : list Contact.t;
  cache : gmap string CacheEntry;
  background : list Mail
}.

Definition with_users (f : list User.t -> list User.t) (w : World) : World :=
  {| users := f (users w); contacts := contacts w; cache := cache w;
     background := background w |}.

Definition with_cache
    (f : gmap string CacheEntry -> gmap string CacheEntry) (w : World)
  : World :=
  {| users := users w; contacts := contacts w; cache := f (cache w);
     background := background w |}.

Definition with_background (f : list Mail -> list Mail) (w : World) : World :=
  {| users := users w; contacts := contacts w; cache := cache w;
     background := f (background w) |}.

Definition M (A : Type) : Type := World -> (Exc + A) * World.

Definition ret {A} (a : A) : M A := fun w => (inr a, w).
Definition raise {A} (e : Exc) : M A := fun w => (inl e, w).
Definition bind {A B} (c : M A) (k : A -> M B) : M B :=
  fun w =>
    match c w with
    | (inr a, w') => k a w'
    | (inl e, w') => (inl e, w')
    end.
Definition gets {A} (f : World -> A) : M A := fun w => (inr (f w), w).
Definition modify (f : World -> World) : M unit := fun w => (inr tt, f w).

(** [try: body except Exception as e: handler e] *)
Definition try_except {A} (body : M A) (handler : Exc -> M A) : M A :=
  fun w =>
    match body w with
    | (inl e, w') => handler e w'
    | r => r
    end.

(** A pure computation that may raise. *)
Definition lift {A} (r : Exc + A) : M A := fun w => (r, w).

Notation "'do' x <- c ; k" := (bind c (fun x => k))
  (at level 10, x pattern, c at level 100, k at level 200,
   format "'[v' 'do'  x  <-  c ; '/' k ']'").
Notation "'run' c ; k" := (bind c (fun _ => k))
  (at level 10, c at level 100, k at level 200,
   format "'[v' 'run'  c ; '/' k ']'").

(** ** python-jose: [jwt.encode] and [jwt.decode] *)

Module jwt.
(** [datetime] claims are already seconds here, so encoding only signs. *)
Definition encode (claims : dict) (key : string) (algorithm : string)
  : Token :=
  JWS claims key algorithm.

(** The registered claims [jwt.decode] validates, of those the service
    sets: [exp] and [iat] must be integers, the token is refused once
    [exp] is in the past, and [sub] must be a string. The service never
    sets [nbf], [aud], [iss] or [jti]; they are left out. *)
Definition valid_exp (now : Z) (c : dict) : bool :=
  match dict_get "exp" c with
  | None => true
  | Some (JInt e) => negb (e <? now)
  | Some _ => false
  end.

Definition valid_iat (c : dict) : bool :=
  match dict_get "iat" c with
  | None | Some (JInt _) => true
  | Some _ => false
  end.

Definition valid_sub (c : dict) : bool :=
  match dict_get "sub" c with
  | None | Some (JStr _) => true
  | Some _ => false
  end.

(** Every failure is a [JWTError] (or one of its subclasses). *)
Definition decode (token : Token) (key : string) (algorithms : list string)
    (now : Z) : Exc + dict :=
  match token with
  | Opaque _ => inl JWTError
  | JWS c k a =>
      if bool_decide (k = key) && bool_decide (a ∈ algorithms)
         && valid_exp now c && valid_iat c && valid_sub c
      then inr c
      else inl JWTError
  end.
End jwt.

(** [payload[k]] *)
Definition subscript (payload : dict) (k : string) : Exc + JVal :=
  match dict_get k payload with
  | Some v => inr v
  | None => inl (KeyError k)
  end.

(** ** src/repository/users.py *)

(** The request body of signup ([UserSchema]), already validated. *)
Record UserSchema : Type := {
  body_username : string;
  body_email : string;
  body_password : string
}.

(** A loaded ORM instance: the position of the row and its values. *)
Definition UserRow : Type := (nat * User.t)%type.

Module repository_users.
Section with_gravatar.
(** [Gravatar(email).get_image()], [None] when it raises. *)
Variable gravatar : string -> option string.

Definition get_user_by_email (email : JVal) : M (option UserRow) :=
  gets (fun w => list_find (fun u => JStr (User.email u) = email) (users w)).

(** The primary key the table gives a new row. *)
Definition next_id (us : list User.t) : Z :=
  1 + foldr (fun u m => Z.max (User.id u) m) 0 us.

(** Modelled from the spec: a new row is unconfirmed, holds no refresh
    token and has the regular role (the column defaults of the absent
    src/entity/models.py). *)
Definition create_user (body : UserSchema) : M UserRow :=
  let avatar := gravatar (body_email body) in
  do us <- gets users;
  let new_user :=
    User.mk (next_id us) (body_username body) (body_email body)
            (body_password body) avatar None false regular in
  run modify (with_users (fun us => (us ++ [new_user])%list));
  ret (length us, new_user).

Definition update_token (user : UserRow) (token : option Token) : M unit :=
  modify (with_users (alter (User.set_refresh_token token) (fst user))).

Definition confirmed_email (email : JVal) : M unit :=
  do user <- get_user_by_email email;
  match user with
  | None => raise (AttributeError "confirmed")
  | Some user =>
      modify (with_users (alter (User.set_confirmed true) (fst user)))
  end.

Definition update_avatar_url (email : JVal) (url : option string)
  : M UserRow :=
  do user <- get_user_by_email email;
  match user with
  | None => raise (AttributeError "avatar")
  | Some user =>
      run modify (with_users (alter (User.set_avatar url) (fst user)));
      ret (fst user, User.set_avatar url (snd user))
  end.
End with_gravatar.
End repository_users.

(** ** src/services/auth.py *)

(** Sequencing of pure computations that may raise. *)
Definition and_then {A B} (r : Exc + A) (k : A -> Exc + B) : Exc + B :=
  match r with
  | inr a => k a
  | inl e => inl e
  end.

Notation "'let?' x := c 'in' k" := (and_then c (fun x => k))
  (at level 10, x pattern, c at level 100, k at level 200,
   format "'[v' 'let?'  x  :=  c  'in' '/' k ']'").

(** [try: body except JWTError: raise e]; any other exception goes on. *)
Definition except_JWTError {A} (body : Exc + A) (e : Exc) : Exc + A :=
  match body with
  | inl JWTError => inl e
  | r => r
  end.

(** passlib's [CryptContext]: the bcrypt hash is salted, so it is kept
    abstract. *)
Record CryptContext : Type := {
  hash : string -> string;
  verify : string -> string -> bool
}.

Record Auth : Type := {
  pwd_context : CryptContext;
  SECRET_KEY : string;
  ALGORITHM : string
}.

Record TokenSchema : Type := {
  access_token : Token;
  refresh_token : Token;
  token_type : string
}.

Module services_auth.
Definition verify_password (self : Auth)
    (plain_password hashed_password : string) : bool :=
  verify (pwd_context self) plain_password hashed_password.

Definition get_password_hash (self : Auth) (password : string) : string :=
  hash (pwd_context self) password.

(** [if expires_delta:] is false for [None] and for [0]. *)
Definition expiry (expires_delta : option Z) (default now : Z) : Z :=
  match expires_delta with
  | Some d => if d =? 0 then now + default else now + d
  | None => now + default
  end.

Definition create_access_token (self : Auth) (data : dict)
    (expires_delta : option Z) (now : Z) : Token :=
  let to_encode := data in
  let expire := expiry expires_delta (15 * 60) now in
  let to_encode :=
    dict_update to_encode
      [("iat", JInt now); ("exp", JInt expire);
       ("scope", JStr "access_token")] in
  jwt.encode to_encode (SECRET_KEY self) (ALGORITHM self).

Definition create_refresh_token (self : Auth) (data : dict)
    (expires_delta : option Z) (now : Z) : Token :=
  let to_encode := data in
  let expire := expiry expires_delta (7 * 24 * 60 * 60) now in
  let to_encode :=
    dict_update to_encode
      [("iat", JInt now); ("exp", JInt expire);
       ("scope", JStr "refresh_token")] in
  jwt.encode to_encode (SECRET_KEY self) (ALGORITHM self).

Definition decode_refresh_token (self : Auth) (refresh_token : Token)
    (now : Z) : Exc + JVal :=
  except_JWTError
    (let? payload :=
       jwt.decode refresh_token (SECRET_KEY self) [ALGORITHM self] now in
     let? score := subscript payload "score" in
     if bool_decide (score = JStr "refresh_token") then
       let? email := subscript payload "sub" in
       inr email
     else
       inl (HTTPException status.HTTP_401_UNAUTHORIZED
              (text "Invalid scope for requested token") []))
    (HTTPException status.HTTP_401_UNAUTHORIZED
       (text "Could not validate credentials") []).

Definition credentials_exception : Exc :=
  HTTPException status.HTTP_401_UNAUTHORIZED
    (text "Could not validate credentials")
    [("WWW-Authenticate", "Bearer")].

(** The [try] block of [get_current_user]: the subject of a token that
    decodes and carries the access scope. *)
Definition get_current_user_subject (self : Auth) (token : Token)
    (now : Z) : Exc + JVal :=
  except_JWTError
    (let? payload :=
       jwt.decode token (SECRET_KEY self) [ALGORITHM self] now in
     let? scope := subscript payload "scope" in
     if bool_decide (scope = JStr "access_token") then
       let? email := subscript payload "sub" in
       if bool_decide (email = JNull) then inl credentials_exception
       else inr email
     else
       inl credentials_exception)
    credentials_exception.

Definition get_current_user (self : Auth) (token : Token) (now : Z)
  : M User.t :=
  do email <- lift (get_current_user_subject self token now);
  let user_hash := py_str email in
  do user <- gets (fun w => redis.get user_hash now (cache w));
  match user with
  | None =>
      do user <- repository_users.get_user_by_email email;
      match user with
      | None => raise credentials_exception
      | Some user =>
          run modify (with_cache (redis.set user_hash (snd user)));
          run modify (with_cache (redis.expire user_hash 300 now));
          ret (snd user)
      end
  | Some user => ret user
  end.

Definition create_email_token (self : Auth) (data : dict) (now : Z)
  : Token :=
  let to_encode := data in
  let expire := now + 24 * 60 * 60 in
  let to_encode :=
    dict_update to_encode [("iat", JInt now); ("exp", JInt expire)] in
  jwt.encode to_encode (SECRET_KEY self) (ALGORITHM self).

Definition get_email_from_token (self : Auth) (token : Token) (now : Z)
  : Exc + JVal :=
  except_JWTError
    (let? payload :=
       jwt.decode token (SECRET_KEY self) [ALGORITHM self] now in
     let? email := subscript payload "sub" in
     inr email)
    (HTTPException status.HTTP_401_UNAUTHORIZED
       (text "Could not validate credentials") []).
End services_auth.

(** ** src/services/roles.py *)

Record RoleAccess : Type := { allowed_roles : list Role }.

(** [RoleAccess.__call__]: nothing is returned when the role is allowed. *)
Definition RoleAccess_call {Request : Type} (self : RoleAccess)
    (request : Request) (user : User.t) : Exc + unit :=
  if bool_decide (User.role user ∉ allowed_roles self) then
    inl (HTTPException status.HTTP_403_FORBIDDEN (text "FORBIDDEN") [])
  else
    inr tt.

(** ** src/routes/auth.py *)

Record OAuth2PasswordRequestForm : Type := {
  form_username : string;
  form_password : string
}.

Module routes_auth.
Section with_service.
Variable auth_service : Auth.
Variable gravatar : string -> option string.

Definition signup (body : UserSchema) (base_url : string) : M User.t :=
  try_except
    (do exist_user <-
       repository_users.get_user_by_email (JStr (body_email body));
     match exist_user with
     | Some _ =>
         raise (HTTPException status.HTTP_409_CONFLICT
                  (message messages.ACCOUNT_EXIST) [])
     | None =>
         let body :=
           {| body_username := body_username body;
              body_email := body_email body;
              body_password :=
                services_auth.get_password_hash auth_service
                  (body_password body) |} in
         do new_user <- repository_users.create_user gravatar body;
         run modify (with_background (fun q =>
               (q ++ [ {| mail_to := User.email (snd new_user);
                          mail_username := User.username (snd new_user);
                          mail_host := base_url |} ])%list));
         ret (snd new_user)
     end)
    (fun e =>
       raise (HTTPException status.HTTP_400_BAD_REQUEST (str e) [])).

Definition login (body : OAuth2PasswordRequestForm) (now : Z)
  : M TokenSchema :=
  do user <- repository_users.get_user_by_email (JStr (form_username body));
  match user with
  | None =>
      raise (HTTPException status.HTTP_401_UNAUTHORIZED
               (message messages.EMAIL_NOT_FOUND) [])
  | Some user =>
      if negb (User.confirmed (snd user)) then
        raise (HTTPException status.HTTP_401_UNAUTHORIZED
                 (message messages.EMAIL_NOT_CONFIRMED) [])
      else if negb (services_auth.verify_password auth_service
                      (form_password body) (User.password (snd user))) then
        raise (HTTPException status.HTTP_401_UNAUTHORIZED
                 (message messages.INCORRECT_PASSWORD) [])
      else
        let access_token :=
          services_auth.create_access_token auth_service
            [("sub", JStr (User.email (snd user)))] None now in
        let refresh_token :=
          services_auth.create_refresh_token auth_service
            [("sub", JStr (User.email (snd user)))] None now in
        run repository_users.update_token user (Some refresh_token);
        ret {| access_token := access_token;
               refresh_token := refresh_token;
               token_type := "bearer" |}
  end.

Definition refresh_token (credentials : Token) (now : Z) : M TokenSchema :=
  let token := credentials in
  do email <- lift (services_auth.decode_refresh_token auth_service token now);
  do user <- repository_users.get_user_by_email email;
  match user with
  | None => raise (AttributeError "refresh_token")
  | Some user =>
      if bool_decide (User.refresh_token (snd user) ≠ Some token) then
        run repository_users.update_token user None;
        raise (HTTPException status.HTTP_401_UNAUTHORIZED
                 (message messages.INVALID_REFRESH_TOKEN) [])
      else
        let access_token :=
          services_auth.create_access_token auth_service
            [("sub", email)] None now in
        let refresh_token :=
          services_auth.create_refresh_token auth_service
            [("sub", email)] None now in
        run repository_users.update_token user (Some refresh_token);
        ret {| access_token := access_token;
               refresh_token := refresh_token;
               token_type := "bearer" |}
  end.

Definition confirmed_email (token : Token) (now : Z) : M string :=
  do email <- lift (services_auth.get_email_from_token auth_service token now);
  do user <- repository_users.get_user_by_email email;
  match user with
  | None =>
      raise (HTTPException status.HTTP_400_BAD_REQUEST
               (message messages.USER_NOT_FOUND) [])
  | Some user =>
      if User.confirmed (snd user) then
        ret "Verification has already been passed"
      else
        run repository_users.confirmed_email email;
        ret "Verification successful"
  end.

Definition request_email (email : string) (base_url : string) : M string :=
  do user <- repository_users.get_user_by_email (JStr email);
  match user with
  | None => raise (AttributeError "confirmed")
  | Some user =>
      if User.confirmed (snd user) then
        ret "Your email is already confirmed"
      else
        run modify (with_background (fun q =>
              (q ++ [ {| mail_to := User.email (snd user);
                         mail_username := User.username (snd user);
                         mail_host := base_url |} ])%list));
        ret "Check your email for confirmation."
  end.
End with_service.
End routes_auth.

(** ** src/schemas/contacts.py *)

(** The request bodies of the contact routes, already validated.
    [completed] of [ContactSchema] is optional: [None] is a body that does
    not send it ([model_dump(exclude_unset=True)] leaves it out). *)
Module ContactSchema.
Record t : Type := mk {
  name : string;
  lastname : string;
  email : string;
  phone : string;
  birthdate : string;
  others_info : string;
  completed : option bool
}.
End ContactSchema.

Module ContactUpdateSchema.
Record t : Type := mk {
  name : string;
  lastname : string;
  email : string;
  phone : string;
  birthdate : string;
  others_info : string;
  completed : bool
}.
End ContactUpdateSchema.

Definition with_contacts (f : list Contact.t -> list Contact.t) (w : World)
  : World :=
  {| users := users w; contacts := f (contacts w); cache := cache w;
     background := background w |}.

(** ** src/repository/contacts.py *)

Module repository_contacts.
Section with_ilike.
(** The database's [ILIKE]: [ilike column pattern]. *)
Variable ilike : string -> string -> bool.

Definition matches (query : option string) (c : Contact.t) : bool :=
  match query with
  | None => true
  | Some q =>
      if bool_decide (q = "") then true
      else
        let pattern := "%" +:+ q +:+ "%" in
        ilike (Contact.name c) pattern
        || ilike (Contact.lastname c) pattern
        || ilike (Contact.email c) pattern
  end.

Definition page {A} (limit offset : Z) (rows : list A) : list A :=
  take (Z.to_nat limit) (drop (Z.to_nat offset) rows).

Definition owned_by (user : User.t) (c : Contact.t) : bool :=
  bool_decide (Contact.user_id c = User.id user).

Definition get_contacts (limit offset : Z) (query : option string)
    (user : User.t) : M (list Contact.t) :=
  gets (fun w =>
    page limit offset
      (filter (fun c => owned_by user c && matches query c) (contacts w))).

Definition get_all_contacts (limit offset : Z) (query : option string)
  : M (list Contact.t) :=
  gets (fun w =>
    page limit offset (filter (fun c => matches query c) (contacts w))).
End with_ilike.

(** [filter_by(id=contact_id, user=user)] then [first()] *)
Definition get_contact (contact_id : Z) (user : User.t)
  : M (option Contact.t) :=
  gets (fun w =>
    head (filter (fun c => bool_decide (Contact.id c = contact_id)
                           && owned_by user c) (contacts w))).
(** The row [filter_by(id=contact_id, user=user)] selects, as a loaded
    instance: its position and its values. *)
Definition select_contact (contact_id : Z) (user : User.t)
  : M (option (nat * Contact.t)) :=
  gets (fun w =>
    list_find (fun c => bool_decide (Contact.id c = contact_id)
                        && owned_by user c) (contacts w)).

(** The primary key the table gives a new row. *)
Definition next_id (cs : list Contact.t) : Z :=
  1 + foldr (fun c m => Z.max (Contact.id c) m) 0 cs.

(** Modelled from the spec: both timestamps are assigned by the server
    when the row is created, and a body that does not send [completed]
    leaves the column at false (the defaults of the absent
    src/entity/models.py). *)
Definition create_contact (body : ContactSchema.t) (user : User.t) (now : Z)
  : M Contact.t :=
  do cs <- gets contacts;
  let contact :=
    Contact.mk (next_id cs) (ContactSchema.name body)
      (ContactSchema.lastname body) (ContactSchema.email body)
      (ContactSchema.phone body) (ContactSchema.birthdate body)
      (ContactSchema.others_info body)
      (default false (ContactSchema.completed body))
      now now (User.id user) in
  run modify (with_contacts (fun cs => (cs ++ [contact])%list));
  ret contact.

(** Modelled from the spec: the update timestamp is refreshed by the
    mutation. The assignments are those of the source: neither [id] nor
    the owner is assigned. *)
Definition update_contact (contact_id : Z) (body : ContactUpdateSchema.t)
    (user : User.t) (now : Z) : M (option Contact.t) :=
  do found <- select_contact contact_id user;
  match found with
  | Some (i, contact) =>
      let contact :=
        Contact.mk (Contact.id contact) (ContactUpdateSchema.name body)
          (ContactUpdateSchema.lastname body)
          (ContactUpdateSchema.email body) (ContactUpdateSchema.phone body)
          (ContactUpdateSchema.birthdate body)
          (ContactUpdateSchema.others_info body)
          (ContactUpdateSchema.completed body)
          (Contact.created_at contact) now (Contact.user_id contact) in
      run modify (with_contacts (fun cs => <[i := contact]> cs));
      ret (Some contact)
  | None => ret None
  end.

Definition delete_contact (contact_id : Z) (user : User.t)
  : M (option Contact.t) :=
  do found <- select_contact contact_id user;
  match found with
  | Some (i, contact) =>
      run modify (with_contacts (fun cs => delete i cs));
      ret (Some contact)
  | None => ret None
  end.
End repository_contacts.

(** ** src/routes/contacts.py *)

Module routes_contacts.
Definition access_to_route_all : RoleAccess :=
  {| allowed_roles := [admin; moderator] |}.

Section with_service.
Variable auth_service : Auth.
Variable ilike : string -> string -> bool.
Context {Request : Type}.

(** [Query(ge=.., le=..)] and [Path(ge=..)]: checked once the
    dependencies of the route are resolved. *)
Definition validate (ok : bool) : M unit :=
  if ok then ret tt else raise RequestValidationError.

Definition get_contacts (token : Token) (limit offset : Z)
    (query : option string) (now : Z) : M (list Contact.t) :=
  do user <- services_auth.get_current_user auth_service token now;
  run validate ((10 <=? limit) && (limit <=? 500) && (0 <=? offset));
  repository_contacts.get_contacts ilike limit offset query user.

(** [dependencies=[Depends(access_to_route_all)]]: the gate runs on the
    identity [get_current_user] resolved for this request. *)
Definition get_all_contacts (request : Request) (token : Token)
    (limit offset : Z) (query : option string) (now : Z)
  : M (list Contact.t) :=
  do user <- services_auth.get_current_user auth_service token now;
  run lift (RoleAccess_call access_to_route_all request user);
  run validate ((10 <=? limit) && (limit <=? 500) && (0 <=? offset));
  repository_contacts.get_all_contacts ilike limit offset query.

Definition get_contact (token : Token) (contact_id : Z) (now : Z)
  : M Contact.t :=
  do user <- services_auth.get_current_user auth_service token now;
  run validate (1 <=? contact_id);
  do contact <- repository_contacts.get_contact contact_id user;
  match contact with
  | None =>
      raise (HTTPException status.HTTP_404_NOT_FOUND
               (text "Contact not found") [])
  | Some contact => ret contact
  end.
Definition create_contact (token : Token) (body : ContactSchema.t) (now : Z)
  : M Contact.t :=
  do user <- services_auth.get_current_user auth_service token now;
  do contact <- repository_contacts.create_contact body user now;
  ret contact.

Definition update_contact (token : Token) (body : ContactUpdateSchema.t)
    (contact_id : Z) (now : Z) : M Contact.t :=
  do user <- services_auth.get_current_user auth_service token now;
  run validate (1 <=? contact_id);
  do contact <- repository_contacts.update_contact contact_id body user now;
  match contact with
  | None =>
      raise (HTTPException status.HTTP_404_NOT_FOUND
               (text "Contact not found") [])
  | Some contact => ret contact
  end.

Definition delete_contact (token : Token) (contact_id : Z) (now : Z)
  : M (option Contact.t) :=
  do user <- services_auth.get_current_user auth_service token now;
  run validate (1 <=? contact_id);
  do contact <- repository_contacts.get_contact contact_id user;
  match contact with
  | None =>
      raise (HTTPException status.HTTP_404_NOT_FOUND
               (text "Contact not found") [])
  | Some _ =>
      do contact <- repository_contacts.delete_contact contact_id user;
      ret contact
  end.
End with_service.
End routes_contacts.

(** ** src/routes/users.py *)

(** Both routes sit behind a [RateLimiter] dependency, which is outside
    this model: the handlers below are the requests it lets through. The
    second route is also named [get_current_user] in the source. *)
Module routes_users.
Section with_service.
Variable auth_service : Auth.
Context {File : Type}.
(** [cloudinary.uploader.upload] followed by [CloudinaryImage.build_url]:
    the address of the uploaded image for a public id. *)
Variable cloudinary_url : string -> File -> string.

Definition get_current_user (token : Token) (now : Z) : M User.t :=
  do user <- services_auth.get_current_user auth_service token now;
  ret user.

End with_service.
End routes_users.

(** ** A run of the service *)

(** One request to a modelled endpoint. *)
Inductive Call {Request : Type} : Type :=
  | Signup (body : UserSchema) (base_url : string)
  | Login (body : OAuth2PasswordRequestForm)
  | RefreshToken (credentials : Token)
  | ConfirmedEmail (token : Token)
  | RequestEmail (email : string) (base_url : string)
  | GetContacts (token : Token) (limit offset : Z) (query : option string)
  | GetAllContacts (request : Request) (token : Token) (limit offset : Z)
                   (query : option string)
  | GetContact (token : Token) (contact_id : Z).
Arguments Call : clear implicits.

Section serving.
Variable auth_service : Auth.
Variable gravatar : string -> option string.
Variable ilike : string -> string -> bool.
Context {Request : Type}.

(** The state a request leaves behind, whatever it answered. *)
Definition serve (call : Call Request) (now : Z) (w : World) : World :=
  match call with
  | Signup body base_url =>
      snd (routes_auth.signup auth_service gravatar body base_url w)
  | Login body => snd (routes_auth.login auth_service body now w)
  | RefreshToken credentials =>
      snd (routes_auth.refresh_token auth_service credentials now w)
  | ConfirmedEmail token =>
      snd (routes_auth.confirmed_email auth_service token now w)
  | RequestEmail email base_url =>
      snd (routes_auth.request_email email base_url w)
  | GetContacts token limit offset query =>
      snd (routes_contacts.get_contacts auth_service ilike token limit
             offset query now w)
  | GetAllContacts request token limit offset query =>
      snd (routes_contacts.get_all_contacts auth_service ilike request
             token limit offset query now w)
  | GetContact token contact_id =>
      snd (routes_contacts.get_contact auth_service token contact_id now w)
  end.

(** Requests served one after the other, each at its own instant. *)
Fixpoint serve_all (calls : list (Call Request * Z)) (w : World) : World :=
  match calls with
  | [] => w
  | (call, now) :: calls' => serve_all calls' (serve call now w)
  end.
End serving.

(** ** The confirmation flag over a run *)

(** Row [j] of the user table exists and is confirmed. *)
Definition confirmed_at (j : nat) (w : World) : Prop :=
  exists v, users w !! j = Some v /\ User.confirmed v = true.

(** How one request may change the user table: not at all, by one new row
    at the end, or by rewriting one row with a function that keeps a
    confirmed row confirmed. *)
Inductive users_step (us : list User.t) : list User.t -> Prop :=
  | step_same : users_step us us
  | step_new (new : User.t) : users_step us (us ++ [new])%list
  | step_alter (f : User.t -> User.t) (i : nat) :
      (forall v, User.confirmed v = true -> User.confirmed (f v) = true) ->
      users_step us (alter f i us).

(** ** Vocabulary of the further properties *)

(** The lifetime [expires_delta] asks for; [0] is read as no request. *)
Definition asked_lifetime (expires_delta : option Z) (default : Z) : Z :=
  match expires_delta with
  | Some d => if d =? 0 then default else d
  | None => default
  end.

(** A token the service did not sign: not a signed token at all, or
    signed under another key. *)
Definition foreign (self : Auth) (token : Token) : Prop :=
  match token with
  | Opaque _ => True
  | JWS _ key _ => key <> SECRET_KEY self
  end.

(** The claims a signed token carries. *)
Definition claims_of (token : Token) : dict :=
  match token with
  | JWS c _ _ => c
  | Opaque _ => []
  end.

(** What a request may do to the user table, endpoint by endpoint: nothing,
    add the row of a signup whose email no row has, store or clear the
    refresh token of a row, or confirm a row. *)
Inductive users_change (us : list User.t) : list User.t -> Prop :=
  | change_none : users_change us us
  | change_signup (new : User.t) :
      list_find (fun u => JStr (User.email u) = JStr (User.email new)) us
        = None ->
      users_change us (us ++ [new])%list
  | change_token (i : nat) (tok : option Token) :
      users_change us (alter (User.set_refresh_token tok) i us)
  | change_confirm (i : nat) :
      users_change us (alter (User.set_confirmed true) i us).

(** Row [j] of the user table after a run still is the user it was: every
    column but the refresh token and the confirmation flag is as it was. *)
Definition same_user (u u' : User.t) : Prop :=
  User.id u' = User.id u /\ User.email u' = User.email u
  /\ User.username u' = User.username u
  /\ User.password u' = User.password u /\ User.avatar u' = User.avatar u
  /\ User.role u' = User.role u.

(** ** Sample data *)

Module Sample.
Definition service : Auth :=
  {| pwd_context :=
       {| hash := fun p => "bcrypt:" +:+ p;
          verify := fun p h => bool_decide (h = "bcrypt:" +:+ p) |};
     SECRET_KEY := "secret_key";
     ALGORITHM := "HS256" |}.

Definition no_gravatar (email : string) : option string := None.

(** A stand-in for the database's pattern match, for the samples only. *)
Definition any_match (column pattern : string) : bool := true.

Definition john : User.t :=
  User.mk 1 "john" "john@x.com" "bcrypt:secret1" None None true regular.

Definition mary : User.t :=
  User.mk 2 "mary" "mary@x.com" "bcrypt:secret2" None None false admin.

Definition marys_contact : Contact.t :=
  Contact.mk 7 "Paul" "Jones" "paul@x.com" "1234567" "01.01.1990"
    "a friend" false 100 100 2.

Definition world : World :=
  {| users := [john; mary]; contacts := [marys_contact]; cache := ∅;
     background := [] |}.

Definition sub (email : string) : dict := [("sub", JStr email)].

Definition johns_form : OAuth2PasswordRequestForm :=
  {| form_username := "john@x.com"; form_password := "secret1" |}.
End Sample.

(** * Properties *)

(** ** Tokens *)

Lemma dict_update_nil (d : dict) : dict_update d [] = d.
Proof. reflexivity. Qed.

Lemma create_access_token_claims (self : Auth) (v : JVal) (now : Z) :
  services_auth.create_access_token self [("sub", v)] None now =
  JWS [("sub", v); ("iat", JInt now); ("exp", JInt (now + 900));
       ("scope", JStr "access_token")]
      (SECRET_KEY self) (ALGORITHM self).
Proof. reflexivity. Qed.

Lemma create_refresh_token_claims (self : Auth) (v : JVal) (now : Z) :
  services_auth.create_refresh_token self [("sub", v)] None now =
  JWS [("sub", v); ("iat", JInt now); ("exp", JInt (now + 604800));
       ("scope", JStr "refresh_token")]
      (SECRET_KEY self) (ALGORITHM self).
Proof. reflexivity. Qed.

(** A token the service signed decodes to its claims while they are valid. *)
Lemma decode_own_token (self : Auth) (c : dict) (now : Z) :
  jwt.valid_exp now c = true ->
  jwt.valid_iat c = true ->
  jwt.valid_sub c = true ->
  jwt.decode (JWS c (SECRET_KEY self) (ALGORITHM self))
    (SECRET_KEY self) [ALGORITHM self] now = inr c.
Proof.
  intros Hexp Hiat Hsub. unfold jwt.decode.
  rewrite Hexp, Hiat, Hsub.
  rewrite bool_decide_eq_true_2 by reflexivity.
  rewrite bool_decide_eq_true_2 by apply list_elem_of_singleton, eq_refl.
  reflexivity.
Qed.

Lemma valid_exp_issued (v : JVal) (scope : list (string * JVal))
    (now now' ttl : Z) :
  now' <= now + ttl ->
  jwt.valid_exp now'
    ([("sub", v); ("iat", JInt now); ("exp", JInt (now + ttl))] ++ scope)%list
  = true.
Proof.
  intros Hle. unfold jwt.valid_exp. cbn.
  apply negb_true_iff, Z.ltb_ge. exact Hle.
Qed.

Lemma decode_access_token (self : Auth) (email : string) (now now' : Z) :
  now' <= now + 900 ->
  jwt.decode
    (services_auth.create_access_token self [("sub", JStr email)] None now)
    (SECRET_KEY self) [ALGORITHM self] now' =
  inr [("sub", JStr email); ("iat", JInt now); ("exp", JInt (now + 900));
       ("scope", JStr "access_token")].
Proof.
  intros Hle. rewrite create_access_token_claims.
  apply decode_own_token; [|reflexivity..].
  exact (valid_exp_issued (JStr email) [_] now now' 900 Hle).
Qed.

Lemma decode_refresh_token_claims (self : Auth) (email : string)
    (now now' : Z) :
  now' <= now + 604800 ->
  jwt.decode
    (services_auth.create_refresh_token self [("sub", JStr email)] None now)
    (SECRET_KEY self) [ALGORITHM self] now' =
  inr [("sub", JStr email); ("iat", JInt now); ("exp", JInt (now + 604800));
       ("scope", JStr "refresh_token")].
Proof.
  intros Hle. rewrite create_refresh_token_claims.
  apply decode_own_token; [|reflexivity..].
  exact (valid_exp_issued (JStr email) [_] now now' 604800 Hle).
Qed.

(** C8: an access token issued for a subject, verified against the access
    scope no later than 15 minutes (900 seconds) after it was issued, gives
    the subject back unchanged. *)
Theorem access_token_round_trip (self : Auth) (email : string)
    (now now' : Z) :
  now' <= now + 900 ->
  services_auth.get_current_user_subject self
    (services_auth.create_access_token self [("sub", JStr email)] None now)
    now' = inr (JStr email).
Proof.
  intros Hle. unfold services_auth.get_current_user_subject.
  rewrite (decode_access_token self email now now' Hle).
  reflexivity.
Qed.

Lemma access_token_round_trip_witness :
  1900 <= 1000 + 900 /\
  services_auth.get_current_user_subject Sample.service
    (services_auth.create_access_token Sample.service
       [("sub", JStr "john@x.com")] None 1000) 1900
  = inr (JStr "john@x.com").
Proof.
  split; [lia | apply (access_token_round_trip Sample.service); lia].
Defined.

(** ** Refreshing *)

(** A refresh token of the service, still valid, at the refresh decoder. *)
Lemma decode_refresh_token_on_refresh (self : Auth) (email : string)
    (now now' : Z) :
  now' <= now + 604800 ->
  services_auth.decode_refresh_token self
    (services_auth.create_refresh_token self [("sub", JStr email)] None now)
    now' = inl (KeyError "score").
Proof.
  intros Hle. unfold services_auth.decode_refresh_token.
  rewrite (decode_refresh_token_claims self email now now' Hle).
  reflexivity.
Qed.

(** C1: [decode_refresh_token] reads the claim ["score"], which no token of
    this service carries: a refresh token that is still valid, and an
    access token that is still valid, both leave the decoder with a
    [KeyError], which is neither the subject nor the wrong-scope error. *)
Theorem decode_refresh_token_KeyError (self : Auth) (email : string)
    (now now' : Z) :
  (now' <= now + 604800 ->
   services_auth.decode_refresh_token self
     (services_auth.create_refresh_token self [("sub", JStr email)] None now)
     now' = inl (KeyError "score"))
  /\
  (now' <= now + 900 ->
   services_auth.decode_refresh_token self
     (services_auth.create_access_token self [("sub", JStr email)] None now)
     now' = inl (KeyError "score")).
Proof.
  split; intros Hle.
  - apply decode_refresh_token_on_refresh, Hle.
  - unfold services_auth.decode_refresh_token.
    rewrite (decode_access_token self email now now' Hle).
    reflexivity.
Qed.

Lemma decode_refresh_token_KeyError_witness :
  services_auth.decode_refresh_token Sample.service
    (services_auth.create_refresh_token Sample.service
       (Sample.sub "john@x.com") None 1000) 1001
  = inl (KeyError "score")
  /\
  services_auth.decode_refresh_token Sample.service
    (services_auth.create_access_token Sample.service
       (Sample.sub "john@x.com") None 1000) 1001
  = inl (KeyError "score").
Proof.
  pose proof
    (decode_refresh_token_KeyError Sample.service "john@x.com" 1000 1001)
    as [Hrefresh Haccess].
  split; [apply Hrefresh | apply Haccess]; lia.
Defined.

(** The comparison with the persisted token, for a token the decoder lets
    through: a token that differs from the persisted one clears the row and
    is refused, the persisted one is exchanged for a new pair. *)
Lemma refresh_token_after_decode (auth_service : Auth) (token : Token)
    (now : Z) (w : World) (email : JVal) (i : nat) (u : User.t) :
  services_auth.decode_refresh_token auth_service token now = inr email ->
  list_find (fun x => JStr (User.email x) = email) (users w) = Some (i, u) ->
  routes_auth.refresh_token auth_service token now w =
  if bool_decide (User.refresh_token u ≠ Some token) then
    (inl (HTTPException 401 (message messages.INVALID_REFRESH_TOKEN) []),
     with_users (alter (User.set_refresh_token None) i) w)
  else
    let fresh :=
      services_auth.create_refresh_token auth_service [("sub", email)]
        None now in
    (inr {| access_token :=
              services_auth.create_access_token auth_service [("sub", email)]
                None now;
            refresh_token := fresh;
            token_type := "bearer" |},
     with_users (alter (User.set_refresh_token (Some fresh)) i) w).
Proof.
  intros Hdec Hfind.
  unfold routes_auth.refresh_token, bind, lift,
    repository_users.get_user_by_email, gets.
  rewrite Hdec, Hfind. cbn [snd fst].
  destruct (bool_decide (User.refresh_token u ≠ Some token)); reflexivity.
Qed.

(** C3: the refresh endpoint never reaches the comparison with the
    persisted token for a refresh token of this service: while the token is
    valid the request ends in [KeyError "score"] and the state is left as
    it was, whether or not the token is the persisted one. *)
Theorem refresh_token_KeyError (auth_service : Auth) (email : string)
    (now now' : Z) (w : World) :
  now' <= now + 604800 ->
  routes_auth.refresh_token auth_service
    (services_auth.create_refresh_token auth_service [("sub", JStr email)]
       None now) now' w
  = (inl (KeyError "score"), w).
Proof.
  intros Hle. unfold routes_auth.refresh_token, bind, lift.
  rewrite (decode_refresh_token_on_refresh auth_service email now now' Hle).
  reflexivity.
Qed.

(** John logs in at 1000 and again at 2000, then presents the token of his
    first login at 2001: the persisted token (of the second login) is not
    cleared, and the answer is the [KeyError]. *)
Lemma refresh_token_KeyError_witness :
  let w1 := snd (routes_auth.login Sample.service Sample.johns_form 1000
                   Sample.world) in
  let w2 := snd (routes_auth.login Sample.service Sample.johns_form 2000 w1) in
  let first :=
    services_auth.create_refresh_token Sample.service
      (Sample.sub "john@x.com") None 1000 in
  let second :=
    services_auth.create_refresh_token Sample.service
      (Sample.sub "john@x.com") None 2000 in
  2001 <= 1000 + 604800 /\
  User.refresh_token <$> users w1 !! 0%nat = Some (Some first) /\
  User.refresh_token <$> users w2 !! 0%nat = Some (Some second) /\
  first <> second /\
  routes_auth.refresh_token Sample.service first 2001 w2
  = (inl (KeyError "score"), w2).
Proof.
  cbv zeta. split; [lia|]. split; [reflexivity|]. split; [reflexivity|].
  split; [discriminate|].
  apply (refresh_token_KeyError Sample.service "john@x.com" 1000 2001). lia.
Defined.

(** ** Signing up and logging in *)

(** C2: when the email of a signup request already belongs to a user, the
    409 raised for it is caught by the handler's own [except Exception] and
    the caller gets a 400 whose detail is the text of that exception; no
    row is created and nothing else changes. *)
Theorem signup_existing_email (auth_service : Auth)
    (gravatar : string -> option string) (body : UserSchema)
    (base_url : string) (w : World) (row : UserRow) :
  list_find (fun u => JStr (User.email u) = JStr (body_email body)) (users w)
    = Some row ->
  routes_auth.signup auth_service gravatar body base_url w =
  (inl (HTTPException status.HTTP_400_BAD_REQUEST
          (str (HTTPException status.HTTP_409_CONFLICT
                  (message messages.ACCOUNT_EXIST) [])) []),
   w).
Proof.
  intros Hfind.
  unfold routes_auth.signup, try_except, bind,
    repository_users.get_user_by_email, gets.
  rewrite Hfind. reflexivity.
Qed.

Lemma signup_existing_email_witness :
  let body :=
    {| body_username := "johnny"; body_email := "john@x.com";
       body_password := "secret9" |} in
  list_find (fun u => JStr (User.email u) = JStr (body_email body))
    (users Sample.world) = Some (0%nat, Sample.john)
  /\
  routes_auth.signup Sample.service Sample.no_gravatar body "http://host/"
    Sample.world =
  (inl (HTTPException 400
          (str (HTTPException 409 (message messages.ACCOUNT_EXIST) [])) []),
   Sample.world).
Proof.
  cbv zeta. split; [reflexivity|].
  apply (signup_existing_email Sample.service Sample.no_gravatar _
           "http://host/" Sample.world (0%nat, Sample.john)).
  reflexivity.
Defined.



(** ** The role gate *)

(** C7: the gate lets an identity through exactly when its role is in the
    allow-set the gate was built with, and answers 403 otherwise; the
    request plays no part in the decision. *)
Theorem RoleAccess_permits_iff {Request : Type} (self : RoleAccess)
    (request request' : Request) (user : User.t) :
  (RoleAccess_call self request user = inr tt
   <-> User.role user ∈ allowed_roles self)
  /\
  (RoleAccess_call self request user
   = inl (HTTPException status.HTTP_403_FORBIDDEN (text "FORBIDDEN") [])
   <-> User.role user ∉ allowed_roles self)
  /\
  RoleAccess_call self request user = RoleAccess_call self request' user.
Proof.
  unfold RoleAccess_call.
  destruct (bool_decide_reflect (User.role user ∉ allowed_roles self))
    as [Hout | Hin].
  - split; [|split]; [split | split |]; done.
  - assert (User.role user ∈ allowed_roles self) as Hmem
      by (destruct (decide (User.role user ∈ allowed_roles self)); done).
    split; [|split]; [split | split |]; done.
Qed.

Lemma RoleAccess_permits_iff_witness :
  RoleAccess_call routes_contacts.access_to_route_all tt Sample.mary = inr tt
  /\
  RoleAccess_call routes_contacts.access_to_route_all tt Sample.john
  = inl (HTTPException 403 (text "FORBIDDEN") []).
Proof.
  split.
  - destruct (RoleAccess_permits_iff routes_contacts.access_to_route_all
                tt tt Sample.mary) as [[_ Hpermit] _].
    apply Hpermit, list_elem_of_here.
  - destruct (RoleAccess_permits_iff routes_contacts.access_to_route_all
                tt tt Sample.john) as [_ [[_ Hforbid] _]].
    apply Hforbid. intros Hin.
    apply elem_of_cons in Hin as [Hin | Hin]; [discriminate|].
    apply list_elem_of_singleton in Hin. discriminate.
Defined.

(** ** The authentication gate *)

(** What [set] followed by [expire] leaves in the cache. *)
Lemma redis_set_expire (k : string) (u : User.t) (seconds now : Z)
    (c : gmap string CacheEntry) :
  redis.expire k seconds now (redis.set k u c)
  = <[k := {| value := u; expire_at := Some (now + seconds) |}]> c.
Proof. unfold redis.expire, redis.set. rewrite alter_insert_eq. reflexivity. Qed.

Lemma redis_get_insert (k : string) (u : User.t) (deadline t : Z)
    (c : gmap string CacheEntry) :
  redis.get k t (<[k := {| value := u; expire_at := Some deadline |}]> c)
  = if t <? deadline then Some u else None.
Proof. unfold redis.get, redis.live. rewrite lookup_insert_eq. reflexivity. Qed.

(** The gate reads both tables and writes neither. *)
Lemma get_current_user_keeps_tables (self : Auth) (token : Token) (now : Z)
    (w : World) :
  let w' := snd (services_auth.get_current_user self token now w) in
  users w' = users w /\ contacts w' = contacts w
  /\ background w' = background w.
Proof.
  cbv zeta.
  unfold services_auth.get_current_user, bind, lift,
    repository_users.get_user_by_email, gets, modify, raise, ret.
  destruct (services_auth.get_current_user_subject self token now)
    as [e | email]; [done|].
  cbn [fst snd].
  destruct (redis.get (py_str email) now (cache w)); [done|].
  destruct (list_find (fun u => JStr (User.email u) = email) (users w))
    as [[i u]|]; done.
Qed.

(** C5: for a token that passes the access-scope verification, the gate
    looks the subject up in the cache first. A live cache entry is returned
    as it is, whatever the user table holds. Without one the user table is
    searched by email: no such user is the 401 credentials error, otherwise
    the row found is returned and stored under the subject with an expiry
    300 seconds ahead, so that it is served from the cache before that
    instant and not from it after. *)
Theorem get_current_user_cache_first (self : Auth) (token : Token)
    (now : Z) (w : World) (email : JVal) :
  services_auth.get_current_user_subject self token now = inr email ->
  let key := py_str email in
  let find :=
    list_find (fun u => JStr (User.email u) = email) (users w) in
  (forall snapshot,
     redis.get key now (cache w) = Some snapshot ->
     forall rows,
       let w0 := with_users (fun _ => rows) w in
       services_auth.get_current_user self token now w0
       = (inr snapshot, w0))
  /\
  (redis.get key now (cache w) = None ->
   find = None ->
   services_auth.get_current_user self token now w
   = (inl services_auth.credentials_exception, w))
  /\
  (forall i u,
     redis.get key now (cache w) = None ->
     find = Some (i, u) ->
     let w' :=
       with_cache
         (insert key {| value := u; expire_at := Some (now + 300) |}) w in
     services_auth.get_current_user self token now w = (inr u, w')
     /\ (forall t, t < now + 300 -> redis.get key t (cache w') = Some u)
     /\ (forall t, now + 300 <= t -> redis.get key t (cache w') = None)).
Proof.
  intros Hsub. cbv zeta.
  unfold services_auth.get_current_user, bind, lift,
    repository_users.get_user_by_email, gets, modify, raise, ret.
  rewrite Hsub. cbn [fst snd].
  split; [|split].
  - intros snapshot Hhit rows. cbn [cache with_users]. rewrite Hhit.
    reflexivity.
  - intros Hmiss Hnone. rewrite Hmiss, Hnone. reflexivity.
  - intros i u Hmiss Hfind. rewrite Hmiss, Hfind. cbn [fst snd].
    split; [|split].
    + unfold with_cache. cbn [users contacts cache background].
      rewrite redis_set_expire. reflexivity.
    + intros t Ht. cbn [cache with_cache]. rewrite redis_get_insert.
      apply Z.ltb_lt in Ht. rewrite Ht. reflexivity.
    + intros t Ht. cbn [cache with_cache]. rewrite redis_get_insert.
      apply Z.ltb_ge in Ht. rewrite Ht. reflexivity.
Qed.

(** John's access token of 1000 presented at 1001 with an empty cache
    loads his row and caches it; presented again at 1300 against the
    filled cache it is answered from the cache, with the user table
    emptied; at 1301 the entry has expired. *)
Lemma get_current_user_cache_first_witness :
  let token :=
    services_auth.create_access_token Sample.service
      (Sample.sub "john@x.com") None 1000 in
  let filled :=
    with_cache
      (insert "john@x.com"
         {| value := Sample.john; expire_at := Some (1001 + 300) |})
      Sample.world in
  services_auth.get_current_user_subject Sample.service token 1001
    = inr (JStr "john@x.com")
  /\ services_auth.get_current_user Sample.service token 1001 Sample.world
    = (inr Sample.john, filled)
  /\ services_auth.get_current_user Sample.service token 1300
       (with_users (fun _ => []) filled)
    = (inr Sample.john, with_users (fun _ => []) filled)
  /\ redis.get "john@x.com" 1301 (cache filled) = None.
Proof.
  cbv zeta.
  assert (services_auth.get_current_user_subject Sample.service
            (services_auth.create_access_token Sample.service
               (Sample.sub "john@x.com") None 1000) 1001
          = inr (JStr "john@x.com")) as Hsub
    by reflexivity.
  assert (services_auth.get_current_user_subject Sample.service
            (services_auth.create_access_token Sample.service
               (Sample.sub "john@x.com") None 1000) 1300
          = inr (JStr "john@x.com")) as Hsub'
    by reflexivity.
  split; [exact Hsub|].
  destruct (get_current_user_cache_first Sample.service _ 1001 Sample.world
              _ Hsub) as (_ & _ & Hmiss).
  destruct (Hmiss 0%nat Sample.john eq_refl eq_refl) as (Hload & _ & Hdead).
  split; [exact Hload|]. split.
  - destruct (get_current_user_cache_first Sample.service _ 1300
                (with_cache
                   (insert "john@x.com"
                      {| value := Sample.john;
                         expire_at := Some (1001 + 300) |})
                   Sample.world)
                _ Hsub') as (Hhit & _).
    apply (Hhit Sample.john). vm_compute. reflexivity.
  - apply (Hdead 1301). lia.
Defined.

(** ** Contacts *)

(** Rows of a table with a primary key are told apart by it. *)
Lemma same_key_same_row {A} (key : A -> Z) (rows : list A) (x y : A) :
  NoDup (key <$> rows) -> x ∈ rows -> y ∈ rows -> key x = key y -> x = y.
Proof.
  induction rows as [|r rows IH]; intros Hnd Hx Hy Hkey.
  - apply elem_of_nil in Hx. destruct Hx.
  - rewrite fmap_cons in Hnd. apply NoDup_cons in Hnd as [Hfresh Hnd].
    apply elem_of_cons in Hx as [-> | Hx];
      apply elem_of_cons in Hy as [-> | Hy].
    + reflexivity.
    + exfalso. apply Hfresh. rewrite Hkey.
      apply list_elem_of_fmap. exists y. done.
    + exfalso. apply Hfresh. rewrite <- Hkey.
      apply list_elem_of_fmap. exists x. done.
    + apply IH; assumption.
Qed.

(** What the repository hands out for a lookup is a row of the table with
    the identifier asked for and owned by the user asking. *)
Lemma get_contact_owned (contact_id : Z) (user : User.t) (w : World)
    (c : Contact.t) :
  fst (repository_contacts.get_contact contact_id user w) = inr (Some c) ->
  c ∈ contacts w /\ Contact.id c = contact_id
  /\ Contact.user_id c = User.id user.
Proof.
  unfold repository_contacts.get_contact, gets. cbn [fst].
  intros Hhead. injection Hhead as Hhead.
  apply head_Some_elem_of, list_elem_of_filter in Hhead as [Hp Hin].
  apply andb_prop_elim in Hp as [Hid Hown].
  unfold repository_contacts.owned_by in Hown.
  apply bool_decide_unpack in Hid. apply bool_decide_unpack in Hown.
  done.
Qed.

(** C6: a single-contact lookup answers only with a contact the resolved
    caller owns, so never with a contact of another user; looked up by the
    identifier of a contact of another user it answers 404; and the listing
    of all contacts answers only to a resolved caller whose role is admin
    or moderator, and answers a regular caller with 403. *)
Theorem contacts_ownership (auth_service : Auth)
    (ilike : string -> string -> bool) {Request : Type} (request : Request)
    (token : Token) (now : Z) (w : World) :
  (forall contact_id c,
     fst (routes_contacts.get_contact auth_service token contact_id now w)
       = inr c ->
     exists A,
       fst (services_auth.get_current_user auth_service token now w) = inr A
       /\ Contact.user_id c = User.id A)
  /\
  (forall A w' c,
     services_auth.get_current_user auth_service token now w = (inr A, w') ->
     c ∈ contacts w ->
     Contact.user_id c <> User.id A ->
     NoDup (Contact.id <$> contacts w) ->
     1 <= Contact.id c ->
     routes_contacts.get_contact auth_service token (Contact.id c) now w
     = (inl (HTTPException status.HTTP_404_NOT_FOUND
               (text "Contact not found") []), w'))
  /\
  (forall limit offset query l,
     fst (routes_contacts.get_all_contacts auth_service ilike request token
            limit offset query now w) = inr l ->
     exists A,
       fst (services_auth.get_current_user auth_service token now w) = inr A
       /\ (User.role A = admin \/ User.role A = moderator))
  /\
  (forall A w' limit offset query,
     services_auth.get_current_user auth_service token now w = (inr A, w') ->
     User.role A = regular ->
     routes_contacts.get_all_contacts auth_service ilike request token
       limit offset query now w
     = (inl (HTTPException status.HTTP_403_FORBIDDEN (text "FORBIDDEN") []),
        w')).
Proof.
  pose proof (get_current_user_keeps_tables auth_service token now w)
    as (_ & Hcontacts & _). cbv zeta in Hcontacts.
  split; [|split; [|split]].
  - intros contact_id c.
    unfold routes_contacts.get_contact, bind.
    destruct (services_auth.get_current_user auth_service token now w)
      as [[e | A] w']; [discriminate|].
    unfold routes_contacts.validate.
    destruct (1 <=? contact_id); [|discriminate].
    unfold ret at 1.
    destruct (repository_contacts.get_contact contact_id A w')
      as [[e | [c'|]] w''] eqn:Hget; [discriminate| |discriminate].
    intros Hc. injection Hc as ->. exists A. split; [reflexivity|].
    apply (get_contact_owned contact_id A w' c). rewrite Hget. reflexivity.
  - intros A w' c Hgate Hin Hother Hkeys Hpos.
    unfold routes_contacts.get_contact, bind. rewrite Hgate.
    rewrite Hgate in Hcontacts. cbn [snd] in Hcontacts.
    unfold routes_contacts.validate.
    apply Z.leb_le in Hpos. rewrite Hpos. unfold ret at 1.
    destruct (repository_contacts.get_contact (Contact.id c) A w')
      as [[e | [c'|]] w''] eqn:Hget.
    + discriminate Hget.
    + exfalso.
      destruct (get_contact_owned (Contact.id c) A w' c') as (Hin' & Hid & Hown).
      { rewrite Hget. reflexivity. }
      rewrite Hcontacts in Hin'.
      assert (c' = c) as -> by (apply (same_key_same_row Contact.id
                                         (contacts w)); assumption).
      contradiction.
    + unfold repository_contacts.get_contact, gets in Hget.
      injection Hget as _ <-. reflexivity.
  - intros limit offset query l.
    unfold routes_contacts.get_all_contacts, bind, lift.
    destruct (services_auth.get_current_user auth_service token now w)
      as [[e | A] w']; [discriminate|].
    unfold RoleAccess_call, routes_contacts.access_to_route_all.
    cbn [allowed_roles].
    destruct (User.role A) eqn:Hrole.
    + intros _. exists A. rewrite Hrole. auto.
    + intros _. exists A. rewrite Hrole. auto.
    + discriminate.
  - intros A w' limit offset query Hgate Hrole.
    unfold routes_contacts.get_all_contacts, bind, lift. rewrite Hgate.
    unfold RoleAccess_call, routes_contacts.access_to_route_all.
    cbn [allowed_roles]. rewrite Hrole. reflexivity.
Qed.

(** John (regular) asks for Mary's contact 7 and for the listing of all
    contacts; Mary (admin) is given the listing. *)
Lemma contacts_ownership_witness :
  let johns_token :=
    services_auth.create_access_token Sample.service
      (Sample.sub "john@x.com") None 1000 in
  let seen :=
    with_cache
      (insert "john@x.com"
         {| value := Sample.john; expire_at := Some (1001 + 300) |})
      Sample.world in
  routes_contacts.get_contact Sample.service johns_token 7 1001 Sample.world
    = (inl (HTTPException 404 (text "Contact not found") []), seen)
  /\
  routes_contacts.get_all_contacts Sample.service Sample.any_match tt
    johns_token 10 0 None 1001 Sample.world
    = (inl (HTTPException 403 (text "FORBIDDEN") []), seen).
Proof.
  cbv zeta.
  destruct (contacts_ownership Sample.service Sample.any_match tt
              (services_auth.create_access_token Sample.service
                 (Sample.sub "john@x.com") None 1000)
              1001 Sample.world) as (_ & Hnotfound & _ & Hforbidden).
  split.
  - apply (Hnotfound Sample.john _ Sample.marys_contact).
    + vm_compute. reflexivity.
    + apply list_elem_of_here.
    + discriminate.
    + apply NoDup_singleton.
    + vm_compute. discriminate.
  - apply (Hforbidden Sample.john).
    + vm_compute. reflexivity.
    + reflexivity.
Defined.

(** ** Confirming an email *)

(** The confirmation handler, for a token whose subject the decoder gives
    and a user found under that subject. *)
Lemma confirmed_email_found (auth_service : Auth) (token : Token) (now : Z)
    (w : World) (email : JVal) (i : nat) (u : User.t) :
  services_auth.get_email_from_token auth_service token now = inr email ->
  list_find (fun x => JStr (User.email x) = email) (users w) = Some (i, u) ->
  routes_auth.confirmed_email auth_service token now w =
  if User.confirmed u then
    (inr "Verification has already been passed", w)
  else
    (inr "Verification successful",
     with_users (alter (User.set_confirmed true) i) w).
Proof.
  intros Hdec Hfind.
  unfold routes_auth.confirmed_email, repository_users.confirmed_email, bind,
    lift, repository_users.get_user_by_email, gets, modify, ret.
  rewrite Hdec, Hfind. cbn [snd fst].
  destruct (User.confirmed u); [reflexivity|].
  rewrite Hfind. reflexivity.
Qed.

(** Marking a row confirmed does not move it: the same search finds the
    same position afterwards. *)
Lemma list_find_set_confirmed (email : JVal) (rows : list User.t) (i : nat)
    (u : User.t) :
  list_find (fun x => JStr (User.email x) = email) rows = Some (i, u) ->
  list_find (fun x => JStr (User.email x) = email)
    (alter (User.set_confirmed true) i rows)
  = Some (i, User.set_confirmed true u).
Proof.
  intros Hfind. apply list_find_Some in Hfind as (Hlook & Hu & Hbefore).
  apply list_find_Some. split; [|split].
  - rewrite list_lookup_alter, decide_True by reflexivity.
    rewrite Hlook. reflexivity.
  - exact Hu.
  - intros j x Hj Hlt. rewrite list_lookup_alter_ne in Hj by lia.
    exact (Hbefore j x Hj Hlt).
Qed.

Create HintDb handlers.

#[local] Hint Constructors users_step : handlers.

Lemma set_refresh_token_confirmed (tok : option Token) (v : User.t) :
  User.confirmed v = true ->
  User.confirmed (User.set_refresh_token tok v) = true.
Proof. intros H. exact H. Qed.

Lemma set_confirmed_confirmed (v : User.t) :
  User.confirmed v = true -> User.confirmed (User.set_confirmed true v) = true.
Proof. reflexivity. Qed.

#[local] Hint Resolve set_refresh_token_confirmed set_confirmed_confirmed
  : handlers.

Ltac split_handler :=
  repeat (cbn [fst snd users with_users with_cache with_background];
          match goal with
          | |- context [list_find ?P ?l] =>
              destruct (list_find P l) as [[? ?]|] eqn:?
          | |- context [match ?x with _ => _ end] =>
              lazymatch x with
              | context [match _ with _ => _ end] => fail
              | _ => destruct x eqn:?
              end
          end);
  cbn [fst snd users with_users with_cache with_background].

Section run_invariant.
Variable auth_service : Auth.
Variable gravatar : string -> option string.
Variable ilike : string -> string -> bool.
Context {Request : Type}.

Lemma signup_users_step (body : UserSchema) (base_url : string)
    (w : World) :
  users_step (users w)
    (users (snd (routes_auth.signup auth_service gravatar body base_url w))).
Proof.
  unfold routes_auth.signup, try_except, bind,
    repository_users.create_user, bind,
    repository_users.get_user_by_email, gets, modify, raise, ret.
  split_handler; auto with handlers.
Qed.

Lemma login_users_step (body : OAuth2PasswordRequestForm) (now : Z)
    (w : World) :
  users_step (users w)
    (users (snd (routes_auth.login auth_service body now w))).
Proof.
  unfold routes_auth.login, bind, repository_users.update_token,
    repository_users.get_user_by_email, gets, modify, raise, ret.
  split_handler; auto with handlers.
Qed.

Lemma refresh_token_users_step (credentials : Token) (now : Z)
    (w : World) :
  users_step (users w)
    (users (snd (routes_auth.refresh_token auth_service credentials now w))).
Proof.
  unfold routes_auth.refresh_token, bind, lift,
    repository_users.update_token,
    repository_users.get_user_by_email, gets, modify, raise, ret.
  split_handler; auto with handlers.
Qed.

Lemma confirmed_email_users_step (token : Token) (now : Z) (w : World) :
  users_step (users w)
    (users (snd (routes_auth.confirmed_email auth_service token now w))).
Proof.
  unfold routes_auth.confirmed_email, repository_users.confirmed_email,
    bind, lift, repository_users.get_user_by_email, gets, modify, raise,
    ret.
  split_handler; auto with handlers.
Qed.

Lemma request_email_users_step (email base_url : string) (w : World) :
  users_step (users w)
    (users (snd (routes_auth.request_email email base_url w))).
Proof.
  unfold routes_auth.request_email, bind,
    repository_users.get_user_by_email, gets, modify, raise, ret.
  split_handler; auto with handlers.
Qed.

(** The one other writer of the user table, behind the avatar route. *)
Lemma update_avatar_url_users_step (email : JVal) (url : option string)
    (w : World) :
  users_step (users w)
    (users (snd (repository_users.update_avatar_url email url w))).
Proof.
  unfold repository_users.update_avatar_url, bind,
    repository_users.get_user_by_email, gets, modify, raise, ret.
  split_handler; auto with handlers.
Qed.

Lemma serve_users_step (call : Call Request) (now : Z) (w : World) :
  users_step (users w)
    (users (serve auth_service gravatar ilike call now w)).
Proof.
  destruct call; cbn [serve].
  - apply signup_users_step.
  - apply login_users_step.
  - apply refresh_token_users_step.
  - apply confirmed_email_users_step.
  - apply request_email_users_step.
  - pose proof (get_current_user_keeps_tables auth_service token now w)
      as (Hu & _). cbv zeta in Hu.
    unfold routes_contacts.get_contacts, bind, routes_contacts.validate,
      repository_contacts.get_contacts, gets, raise, ret.
    destruct (services_auth.get_current_user auth_service token now w)
      as [[e | A] w']; cbn [snd] in Hu |- *;
      split_handler; rewrite Hu; constructor.
  - pose proof (get_current_user_keeps_tables auth_service token now w)
      as (Hu & _). cbv zeta in Hu.
    unfold routes_contacts.get_all_contacts, bind, lift,
      routes_contacts.validate, repository_contacts.get_all_contacts,
      gets, raise, ret.
    destruct (services_auth.get_current_user auth_service token now w)
      as [[e | A] w']; cbn [snd] in Hu |- *;
      split_handler; rewrite Hu; constructor.
  - pose proof (get_current_user_keeps_tables auth_service token now w)
      as (Hu & _). cbv zeta in Hu.
    unfold routes_contacts.get_contact, bind, routes_contacts.validate,
      repository_contacts.get_contact, gets, raise, ret.
    destruct (services_auth.get_current_user auth_service token now w)
      as [[e | A] w']; cbn [snd] in Hu |- *;
      split_handler; rewrite Hu; constructor.
Qed.

Lemma users_step_confirmed (j : nat) (w w' : World) :
  users_step (users w) (users w') ->
  confirmed_at j w -> confirmed_at j w'.
Proof.
  unfold confirmed_at. generalize (users w) (users w').
  intros us us' Hstep (v & Hlook & Hv).
  destruct Hstep as [| new | f i Hf].
  - exists v. done.
  - exists v. split; [|exact Hv]. apply lookup_app_l_Some. exact Hlook.
  - rewrite list_lookup_alter. destruct (decide (i = j)) as [-> | Hne].
    + exists (f v). rewrite Hlook. split; [reflexivity | apply Hf, Hv].
    + exists v. done.
Qed.

Lemma serve_all_confirmed (calls : list (Call Request * Z)) (j : nat)
    (w : World) :
  confirmed_at j w ->
  confirmed_at j (serve_all auth_service gravatar ilike calls w).
Proof.
  revert w. induction calls as [|[call now] calls IH]; intros w Hj.
  - exact Hj.
  - cbn [serve_all]. apply IH.
    apply (users_step_confirmed j w); [apply serve_users_step | exact Hj].
Qed.
End run_invariant.

Lemma confirmed_email_confirms (auth_service : Auth) (token : Token)
    (now : Z) (w : World) (email : JVal) (i : nat) (u : User.t) :
  services_auth.get_email_from_token auth_service token now = inr email ->
  list_find (fun x => JStr (User.email x) = email) (users w) = Some (i, u) ->
  confirmed_at i (snd (routes_auth.confirmed_email auth_service token now w)).
Proof.
  intros Hdec Hfind.
  rewrite (confirmed_email_found auth_service token now w email i u Hdec Hfind).
  pose proof Hfind as Hfind'.
  apply list_find_Some in Hfind' as (Hlook & _).
  destruct (User.confirmed u) eqn:Hc; cbn [snd].
  - exists u. done.
  - exists (User.set_confirmed true u). split; [|reflexivity].
    cbn [users with_users].
    rewrite list_lookup_alter, decide_True by reflexivity.
    rewrite Hlook. reflexivity.
Qed.

(** C9: a token the confirmation decoder accepts, redeemed for a user who
    exists: if the user is not confirmed yet the flag of that row is set
    and "Verification successful" is answered; if the user is confirmed
    already the answer is "Verification has already been passed" and
    nothing changes; so a second redemption after the first is answered
    that way and leaves the state of the first. Over any sequence of
    requests to the modelled endpoints a confirmed row stays confirmed. *)
Theorem confirmed_email_once (auth_service : Auth)
    (gravatar : string -> option string) (ilike : string -> string -> bool)
    {Request : Type} (token : Token) (now now2 : Z) (w : World)
    (email : JVal) (i : nat) (u : User.t) :
  services_auth.get_email_from_token auth_service token now = inr email ->
  services_auth.get_email_from_token auth_service token now2 = inr email ->
  list_find (fun x => JStr (User.email x) = email) (users w) = Some (i, u) ->
  let first := routes_auth.confirmed_email auth_service token now w in
  let second :=
    routes_auth.confirmed_email auth_service token now2 (snd first) in
  (User.confirmed u = false ->
   first = (inr "Verification successful",
            with_users (alter (User.set_confirmed true) i) w))
  /\ (User.confirmed u = true ->
      first = (inr "Verification has already been passed", w))
  /\ confirmed_at i (snd first)
  /\ second = (inr "Verification has already been passed", snd first)
  /\ (forall (calls : list (Call Request * Z)) (j : nat) (w0 : World),
        confirmed_at j w0 ->
        confirmed_at j (serve_all auth_service gravatar ilike calls w0)).
Proof.
  intros Hdec Hdec2 Hfind. cbv zeta.
  pose proof (confirmed_email_found auth_service token now w email i u
                Hdec Hfind) as Hfirst.
  split; [|split; [|split; [|split]]].
  - intros Hc. rewrite Hfirst, Hc. reflexivity.
  - intros Hc. rewrite Hfirst, Hc. reflexivity.
  - apply (confirmed_email_confirms auth_service token now w email i u);
      assumption.
  - rewrite Hfirst. destruct (User.confirmed u) eqn:Hc; cbn [snd].
    + rewrite (confirmed_email_found auth_service token now2 w email i u
                 Hdec2 Hfind), Hc.
      reflexivity.
    + rewrite (confirmed_email_found auth_service token now2 _ email i
                 (User.set_confirmed true u) Hdec2).
      * reflexivity.
      * cbn [users with_users]. apply list_find_set_confirmed, Hfind.
  - intros calls j w0. apply serve_all_confirmed.
Qed.

(** Mary redeems a confirmation token issued at 1000: at 1500 she gets
    confirmed, at 1600 the token is accepted again and changes nothing;
    a later signup, login and refresh leave her confirmed. *)
Lemma confirmed_email_once_witness :
  let token :=
    services_auth.create_email_token Sample.service
      (Sample.sub "mary@x.com") 1000 in
  let first :=
    routes_auth.confirmed_email Sample.service token 1500 Sample.world in
  let later : list (Call unit * Z) :=
    [(Signup {| body_username := "paul"; body_email := "paul@x.com";
                body_password := "secret3" |} "http://host/", 1700);
     (Login {| form_username := "mary@x.com"; form_password := "secret2" |},
      1800);
     (RefreshToken token, 1900)] in
  first = (inr "Verification successful",
           with_users (alter (User.set_confirmed true) 1%nat) Sample.world)
  /\ routes_auth.confirmed_email Sample.service token 1600 (snd first)
     = (inr "Verification has already been passed", snd first)
  /\ confirmed_at 1%nat
       (serve_all Sample.service Sample.no_gravatar Sample.any_match later
          (snd first)).
Proof.
  cbv zeta.
  destruct (confirmed_email_once Sample.service Sample.no_gravatar
              Sample.any_match (Request := unit)
              (services_auth.create_email_token Sample.service
                 (Sample.sub "mary@x.com") 1000)
              1500 1600 Sample.world (JStr "mary@x.com") 1%nat Sample.mary
              eq_refl eq_refl eq_refl)
    as (Hfresh & _ & Hset & Hagain & Hkept).
  split; [apply Hfresh; reflexivity|].
  split; [exact Hagain|].
  apply Hkept. exact Hset.
Defined.

(** ** The confirmation decoder and the scope tag *)





(** Only a token that carries a ["score"] claim gets past the refresh
    decoder; no function of the service issues one. Signed with the
    service's key, such a token is compared with the persisted one as the
    handler intends: here it differs, the row is cleared and the request
    refused. *)
Example refresh_token_with_score_claim :
  let token :=
    JWS [("sub", JStr "john@x.com"); ("exp", JInt 5000);
         ("score", JStr "refresh_token")]
      (SECRET_KEY Sample.service) (ALGORITHM Sample.service) in
  let w1 := snd (routes_auth.login Sample.service Sample.johns_form 1000
                   Sample.world) in
  routes_auth.refresh_token Sample.service token 1001 w1
  = (inl (HTTPException 401 (message messages.INVALID_REFRESH_TOKEN) []),
     with_users (alter (User.set_refresh_token None) 0%nat) w1).
Proof.
  cbv zeta.
  rewrite (refresh_token_after_decode Sample.service _ 1001 _
             (JStr "john@x.com") 0%nat
             (User.set_refresh_token
                (Some (services_auth.create_refresh_token Sample.service
                         (Sample.sub "john@x.com") None 1000))
                Sample.john));
    reflexivity.
Qed.

(** * Further properties *)

(** ** The lifetime and the kind of a token *)

Lemma decode_JWS (self : Auth) (c : dict) (now : Z) :
  jwt.decode (JWS c (SECRET_KEY self) (ALGORITHM self))
    (SECRET_KEY self) [ALGORITHM self] now
  = if jwt.valid_exp now c && jwt.valid_iat c && jwt.valid_sub c
    then inr c else inl JWTError.
Proof.
  unfold jwt.decode.
  rewrite bool_decide_eq_true_2 by reflexivity.
  rewrite bool_decide_eq_true_2 by apply list_elem_of_singleton, eq_refl.
  reflexivity.
Qed.

(** The claims of a token issued for a subject, at the decoder: they come
    back until the expiry has passed, and a [JWTError] after. *)
Lemma decode_issued (self : Auth) (email : string) (exp now now' : Z)
    (tag : dict) :
  dict_get "exp" tag = None -> dict_get "iat" tag = None ->
  dict_get "sub" tag = None ->
  let c := ([("sub", JStr email); ("iat", JInt now); ("exp", JInt exp)]
            ++ tag)%list in
  jwt.decode (JWS c (SECRET_KEY self) (ALGORITHM self))
    (SECRET_KEY self) [ALGORITHM self] now'
  = if now' <=? exp then inr c else inl JWTError.
Proof.
  intros Hexp Hiat Hsub. cbv zeta. rewrite decode_JWS.
  unfold jwt.valid_exp, jwt.valid_iat, jwt.valid_sub. cbn.
  rewrite Z.leb_antisym. destruct (exp <? now'); reflexivity.
Qed.

Lemma expiry_asked_lifetime (expires_delta : option Z) (default now : Z) :
  services_auth.expiry expires_delta default now
  = now + asked_lifetime expires_delta default.
Proof.
  unfold services_auth.expiry, asked_lifetime.
  destruct expires_delta as [d|]; [destruct (d =? 0)|]; reflexivity.
Qed.

(** X1: an email token is valid for one day: decoded up to 86400 seconds
    after it was issued it gives its subject, and later the 401
    credentials error. *)
Theorem email_token_round_trip (self : Auth) (email : string)
    (now now' : Z) :
  services_auth.get_email_from_token self
    (services_auth.create_email_token self [("sub", JStr email)] now) now'
  = if now' <=? now + 86400 then inr (JStr email)
    else inl (HTTPException status.HTTP_401_UNAUTHORIZED
                (text "Could not validate credentials") []).
Proof.
  unfold services_auth.get_email_from_token.
  change (services_auth.create_email_token self [("sub", JStr email)] now)
    with (JWS ([("sub", JStr email); ("iat", JInt now);
                ("exp", JInt (now + 86400))] ++ [])%list
            (SECRET_KEY self) (ALGORITHM self)).
  rewrite (decode_issued self email (now + 86400) now now' [])
    by reflexivity.
  destruct (now' <=? now + 86400); reflexivity.
Qed.

(** X2: an access token issued with [expires_delta] seconds passes the
    access-scope verification until that many seconds after it was issued
    and is refused with the credentials error later; without
    [expires_delta], and with [expires_delta = 0], the lifetime is 900
    seconds. *)
Theorem access_token_lifetime (self : Auth) (email : string)
    (expires_delta : option Z) (now now' : Z) :
  services_auth.get_current_user_subject self
    (services_auth.create_access_token self [("sub", JStr email)]
       expires_delta now) now'
  = if now' <=? now + asked_lifetime expires_delta 900
    then inr (JStr email)
    else inl services_auth.credentials_exception.
Proof.
  unfold services_auth.get_current_user_subject.
  rewrite <- (expiry_asked_lifetime expires_delta 900 now).
  change (services_auth.create_access_token self [("sub", JStr email)]
            expires_delta now)
    with (JWS ([("sub", JStr email); ("iat", JInt now);
                ("exp", JInt (services_auth.expiry expires_delta (15 * 60)
                                now))]
               ++ [("scope", JStr "access_token")])%list
            (SECRET_KEY self) (ALGORITHM self)).
  rewrite (decode_issued self email _ now now'
             [("scope", JStr "access_token")]) by reflexivity.
  change (15 * 60) with 900.
  destruct (now' <=? services_auth.expiry expires_delta 900 now);
    reflexivity.
Qed.

(** X3: a refresh token never authenticates a request: presented to the
    authentication gate at any instant it is answered with the credentials
    error and the state is left as it was. *)
Theorem refresh_token_at_gate (self : Auth) (email : string)
    (expires_delta : option Z) (now now' : Z) (w : World) :
  services_auth.get_current_user self
    (services_auth.create_refresh_token self [("sub", JStr email)]
       expires_delta now) now' w
  = (inl services_auth.credentials_exception, w).
Proof.
  unfold services_auth.get_current_user, bind, lift,
    services_auth.get_current_user_subject.
  change (services_auth.create_refresh_token self [("sub", JStr email)]
            expires_delta now)
    with (JWS ([("sub", JStr email); ("iat", JInt now);
                ("exp", JInt (services_auth.expiry expires_delta
                                (7 * 24 * 60 * 60) now))]
               ++ [("scope", JStr "refresh_token")])%list
            (SECRET_KEY self) (ALGORITHM self)).
  rewrite (decode_issued self email _ now now'
             [("scope", JStr "refresh_token")]) by reflexivity.
  destruct (now' <=? _); reflexivity.
Qed.

(** X4: an email-confirmation token carries no scope: presented to the
    authentication gate while it is valid, the request ends in
    [KeyError "scope"], an unhandled error and not the credentials error,
    and the state is left as it was. *)
Theorem email_token_at_gate (self : Auth) (email : string) (now now' : Z)
    (w : World) :
  now' <= now + 86400 ->
  services_auth.get_current_user self
    (services_auth.create_email_token self [("sub", JStr email)] now) now' w
  = (inl (KeyError "scope"), w).
Proof.
  intros Hle.
  unfold services_auth.get_current_user, bind, lift,
    services_auth.get_current_user_subject.
  change (services_auth.create_email_token self [("sub", JStr email)] now)
    with (JWS ([("sub", JStr email); ("iat", JInt now);
                ("exp", JInt (now + 86400))] ++ [])%list
            (SECRET_KEY self) (ALGORITHM self)).
  rewrite (decode_issued self email (now + 86400) now now' [])
    by reflexivity.
  apply Z.leb_le in Hle. rewrite Hle. reflexivity.
Qed.

Lemma email_token_at_gate_witness :
  1500 <= 1000 + 86400 /\
  services_auth.get_current_user Sample.service
    (services_auth.create_email_token Sample.service
       (Sample.sub "mary@x.com") 1000) 1500 Sample.world
  = (inl (KeyError "scope"), Sample.world).
Proof.
  split; [lia|].
  apply (email_token_at_gate Sample.service "mary@x.com" 1000 1500). lia.
Defined.

Lemma decode_foreign (self : Auth) (token : Token) (now : Z) :
  foreign self token ->
  jwt.decode token (SECRET_KEY self) [ALGORITHM self] now = inl JWTError.
Proof.
  destruct token as [c k a | s]; [|reflexivity].
  cbn [foreign]. intros Hkey. unfold jwt.decode.
  rewrite bool_decide_eq_false_2 by exact Hkey. reflexivity.
Qed.

(** X5: a token the service did not sign (any string that is not a signed
    token, or a token signed under another key, whatever claims it
    carries) is answered 401 by the authentication gate, by the refresh
    endpoint and by the confirmation endpoint, and none of them changes
    the state. *)
Theorem foreign_token_refused (auth_service : Auth) (token : Token)
    (now : Z) (w : World) :
  foreign auth_service token ->
  services_auth.get_current_user auth_service token now w
    = (inl services_auth.credentials_exception, w)
  /\ routes_auth.refresh_token auth_service token now w
    = (inl (HTTPException status.HTTP_401_UNAUTHORIZED
              (text "Could not validate credentials") []), w)
  /\ routes_auth.confirmed_email auth_service token now w
    = (inl (HTTPException status.HTTP_401_UNAUTHORIZED
              (text "Could not validate credentials") []), w).
Proof.
  intros Hforeign.
  pose proof (decode_foreign auth_service token now Hforeign) as Hdec.
  unfold services_auth.get_current_user, routes_auth.refresh_token,
    routes_auth.confirmed_email, bind, lift,
    services_auth.get_current_user_subject,
    services_auth.decode_refresh_token, services_auth.get_email_from_token.
  rewrite Hdec. repeat split.
Qed.

(** A token with John's claims and the right algorithm, signed under a key
    that is not the service's. *)
Lemma foreign_token_refused_witness :
  let forged :=
    JWS [("sub", JStr "john@x.com"); ("iat", JInt 1000);
         ("exp", JInt 1900); ("scope", JStr "access_token")]
      "guessed_key" "HS256" in
  foreign Sample.service forged /\
  services_auth.get_current_user Sample.service forged 1001 Sample.world
    = (inl services_auth.credentials_exception, Sample.world).
Proof.
  cbv zeta. split; [discriminate|].
  apply (foreign_token_refused Sample.service _ 1001 Sample.world).
  discriminate.
Defined.

(** ** The claims of an issued token *)

Lemma dict_get_set (k k' : string) (v : JVal) (d : dict) :
  dict_get k' (dict_set k v d)
  = if String.eqb k' k then Some v else dict_get k' d.
Proof.
  induction d as [|[k0 v0] d IH]; cbn.
  - destruct (String.eqb k' k); reflexivity.
  - destruct (String.eqb k k0) eqn:Hk0; cbn.
    + apply String.eqb_eq in Hk0 as <-.
      destruct (String.eqb k' k); reflexivity.
    + rewrite IH. destruct (String.eqb k' k) eqn:Hk; [|reflexivity].
      apply String.eqb_eq in Hk as ->. rewrite Hk0. reflexivity.
Qed.

(** X6: whatever the [data] given to the token constructors holds, the
    values of [iat], [exp] and [scope] in the issued token are the
    service's: the issue instant, the expiry and the kind of the token. A
    caller-supplied ["scope"], ["exp"] or ["iat"] is overwritten, and every
    other key of [data] is carried over as it is. *)
Theorem issued_claims (self : Auth) (data : dict) (expires_delta : option Z)
    (now : Z) :
  let access :=
    claims_of (services_auth.create_access_token self data expires_delta
                 now) in
  let refresh :=
    claims_of (services_auth.create_refresh_token self data expires_delta
                 now) in
  (dict_get "scope" access = Some (JStr "access_token")
   /\ dict_get "iat" access = Some (JInt now)
   /\ dict_get "exp" access
      = Some (JInt (now + asked_lifetime expires_delta 900)))
  /\
  (dict_get "scope" refresh = Some (JStr "refresh_token")
   /\ dict_get "iat" refresh = Some (JInt now)
   /\ dict_get "exp" refresh
      = Some (JInt (now + asked_lifetime expires_delta 604800)))
  /\
  (forall k, k <> "iat" -> k <> "exp" -> k <> "scope" ->
             dict_get k access = dict_get k data
             /\ dict_get k refresh = dict_get k data).
Proof.
  cbv zeta.
  unfold services_auth.create_access_token,
    services_auth.create_refresh_token, jwt.encode, claims_of, dict_update.
  cbn [fold_left fst snd].
  rewrite !expiry_asked_lifetime.
  split; [|split].
  - rewrite !dict_get_set. repeat split.
  - rewrite !dict_get_set. repeat split.
  - intros k Hiat Hexp Hscope. rewrite !dict_get_set.
    apply String.eqb_neq in Hiat, Hexp, Hscope.
    rewrite Hiat, Hexp, Hscope. split; reflexivity.
Qed.

Lemma issued_claims_witness :
  let data := [("scope", JStr "refresh_token"); ("sub", JStr "john@x.com")] in
  let access :=
    claims_of (services_auth.create_access_token Sample.service data None
                 1000) in
  dict_get "scope" access = Some (JStr "access_token")
  /\ dict_get "sub" access = Some (JStr "john@x.com").
Proof.
  cbv zeta.
  destruct (issued_claims Sample.service
              [("scope", JStr "refresh_token"); ("sub", JStr "john@x.com")]
              None 1000) as ((Hscope & _) & _ & Hother).
  split; [exact Hscope|].
  destruct (Hother "sub") as [Hsub _]; [discriminate..|]. exact Hsub.
Defined.

(** ** The user table over a run *)

Ltac solve_change :=
  first [ apply change_none
        | apply change_token
        | apply change_confirm
        | apply change_signup; assumption ].

Section run_changes.
Variable auth_service : Auth.
Variable gravatar : string -> option string.
Variable ilike : string -> string -> bool.
Context {Request : Type}.

Lemma serve_users_change (call : Call Request) (now : Z) (w : World) :
  users_change (users w)
    (users (serve auth_service gravatar ilike call now w)).
Proof.
  destruct call; cbn [serve].
  - unfold routes_auth.signup, try_except, bind,
      repository_users.create_user, bind,
      repository_users.get_user_by_email, gets, modify, raise, ret.
    split_handler; solve_change.
  - unfold routes_auth.login, bind, repository_users.update_token,
      repository_users.get_user_by_email, gets, modify, raise, ret.
    split_handler; solve_change.
  - unfold routes_auth.refresh_token, bind, lift,
      repository_users.update_token,
      repository_users.get_user_by_email, gets, modify, raise, ret.
    split_handler; solve_change.
  - unfold routes_auth.confirmed_email, repository_users.confirmed_email,
      bind, lift, repository_users.get_user_by_email, gets, modify, raise,
      ret.
    split_handler; solve_change.
  - unfold routes_auth.request_email, bind,
      repository_users.get_user_by_email, gets, modify, raise, ret.
    split_handler; solve_change.
  - pose proof (get_current_user_keeps_tables auth_service token now w)
      as (Hu & _). cbv zeta in Hu.
    unfold routes_contacts.get_contacts, bind, routes_contacts.validate,
      repository_contacts.get_contacts, gets, raise, ret.
    destruct (services_auth.get_current_user auth_service token now w)
      as [[e | A] w']; cbn [snd] in Hu |- *;
      split_handler; rewrite Hu; constructor.
  - pose proof (get_current_user_keeps_tables auth_service token now w)
      as (Hu & _). cbv zeta in Hu.
    unfold routes_contacts.get_all_contacts, bind, lift,
      routes_contacts.validate, repository_contacts.get_all_contacts,
      gets, raise, ret.
    destruct (services_auth.get_current_user auth_service token now w)
      as [[e | A] w']; cbn [snd] in Hu |- *;
      split_handler; rewrite Hu; constructor.
  - pose proof (get_current_user_keeps_tables auth_service token now w)
      as (Hu & _). cbv zeta in Hu.
    unfold routes_contacts.get_contact, bind, routes_contacts.validate,
      repository_contacts.get_contact, gets, raise, ret.
    destruct (services_auth.get_current_user auth_service token now w)
      as [[e | A] w']; cbn [snd] in Hu |- *;
      split_handler; rewrite Hu; constructor.
Qed.
End run_changes.

Lemma fmap_alter_email (f : User.t -> User.t) (i : nat) (us : list User.t) :
  (forall u, User.email (f u) = User.email u) ->
  User.email <$> alter f i us = User.email <$> us.
Proof.
  intros Hf. rewrite (list_fmap_alter User.email f id)
    by (apply Forall_forall; intros u _; apply Hf).
  apply list_alter_id. reflexivity.
Qed.

Lemma users_change_emails (us us' : list User.t) :
  users_change us us' ->
  NoDup (User.email <$> us) -> NoDup (User.email <$> us').
Proof.
  intros [| new Hnew | i tok | i] Hnd.
  - exact Hnd.
  - rewrite fmap_app. apply NoDup_app. split; [exact Hnd|]. split.
    + intros e He Hin. apply list_elem_of_singleton in Hin as ->.
      apply list_elem_of_fmap in He as (u & Heq & Hu).
      apply list_find_None in Hnew.
      rewrite Forall_forall in Hnew. apply (Hnew u Hu). congruence.
    + apply NoDup_singleton.
  - rewrite fmap_alter_email; [exact Hnd | reflexivity].
  - rewrite fmap_alter_email; [exact Hnd | reflexivity].
Qed.

Lemma same_user_refl (u : User.t) : same_user u u.
Proof. repeat split. Qed.

Lemma same_user_trans (u u' u'' : User.t) :
  same_user u u' -> same_user u' u'' -> same_user u u''.
Proof.
  unfold same_user. intros (?&?&?&?&?&?) (?&?&?&?&?&?).
  repeat split; congruence.
Qed.

Lemma users_change_rows (us us' : list User.t) (j : nat) (u : User.t) :
  users_change us us' ->
  us !! j = Some u -> exists u', us' !! j = Some u' /\ same_user u u'.
Proof.
  intros [| new Hnew | i tok | i] Hj.
  - exists u. split; [exact Hj | apply same_user_refl].
  - exists u. split; [apply lookup_app_l_Some, Hj | apply same_user_refl].
  - rewrite list_lookup_alter. destruct (decide (i = j)) as [-> | Hne].
    + rewrite Hj. eexists. split; [reflexivity | repeat split].
    + exists u. split; [exact Hj | apply same_user_refl].
  - rewrite list_lookup_alter. destruct (decide (i = j)) as [-> | Hne].
    + rewrite Hj. eexists. split; [reflexivity | repeat split].
    + exists u. split; [exact Hj | apply same_user_refl].
Qed.

(** X7: signup only ever adds an email no row has, so over any sequence of
    requests to the modelled endpoints the emails of the user table stay
    pairwise distinct once they are. *)
Theorem emails_stay_distinct (auth_service : Auth)
    (gravatar : string -> option string) (ilike : string -> string -> bool)
    {Request : Type} (calls : list (Call Request * Z)) (w : World) :
  NoDup (User.email <$> users w) ->
  NoDup (User.email <$>
           users (serve_all auth_service gravatar ilike calls w)).
Proof.
  revert w. induction calls as [|[call now] calls IH]; intros w Hnd.
  - exact Hnd.
  - cbn [serve_all]. apply IH.
    apply (users_change_emails (users w)); [|exact Hnd].
    apply serve_users_change.
Qed.

(** Two signups with John's email and one with a new email, then a login. *)
Lemma emails_stay_distinct_witness :
  let calls : list (Call unit * Z) :=
    [(Signup {| body_username := "johnny"; body_email := "john@x.com";
                body_password := "secret9" |} "http://host/", 1000);
     (Signup {| body_username := "paul"; body_email := "paul@x.com";
                body_password := "secret3" |} "http://host/", 1001);
     (Signup {| body_username := "paul2"; body_email := "paul@x.com";
                body_password := "secret4" |} "http://host/", 1002);
     (Login Sample.johns_form, 1003)] in
  NoDup (User.email <$> users Sample.world) /\
  NoDup (User.email <$>
           users (serve_all Sample.service Sample.no_gravatar
                    Sample.any_match calls Sample.world)).
Proof.
  cbv zeta.
  assert (NoDup (User.email <$> users Sample.world)) as Hnd.
  { apply NoDup_cons. split; [|apply NoDup_singleton].
    intros Hin. apply list_elem_of_singleton in Hin. discriminate. }
  split; [exact Hnd|].
  apply (emails_stay_distinct Sample.service Sample.no_gravatar
           Sample.any_match (Request := unit)).
  exact Hnd.
Defined.

(** X8: no modelled endpoint removes a user or rewrites who a row is: over
    any sequence of requests a row keeps its position and every column but
    the refresh token and the confirmation flag: identifier, email, name,
    password hash, avatar and role. *)
Theorem user_rows_stable (auth_service : Auth)
    (gravatar : string -> option string) (ilike : string -> string -> bool)
    {Request : Type} (calls : list (Call Request * Z)) (w : World)
    (j : nat) (u : User.t) :
  users w !! j = Some u ->
  exists u',
    users (serve_all auth_service gravatar ilike calls w) !! j = Some u'
    /\ same_user u u'.
Proof.
  revert w u. induction calls as [|[call now] calls IH]; intros w u Hj.
  - exists u. split; [exact Hj | apply same_user_refl].
  - cbn [serve_all].
    destruct (users_change_rows (users w)
                (users (serve auth_service gravatar ilike call now w)) j u)
      as (u1 & Hj1 & Hsame1); [apply serve_users_change | exact Hj |].
    destruct (IH _ u1 Hj1) as (u' & Hj' & Hsame').
    exists u'. split; [exact Hj' | exact (same_user_trans u u1 u' Hsame1 Hsame')].
Qed.

Lemma user_rows_stable_witness :
  let calls : list (Call unit * Z) :=
    [(Login Sample.johns_form, 1000);
     (ConfirmedEmail
        (services_auth.create_email_token Sample.service
           (Sample.sub "mary@x.com") 1000), 1001);
     (RefreshToken (Opaque "anything"), 1002)] in
  users Sample.world !! 1%nat = Some Sample.mary /\
  exists u',
    users (serve_all Sample.service Sample.no_gravatar Sample.any_match
             calls Sample.world) !! 1%nat = Some u'
    /\ same_user Sample.mary u'.
Proof.
  cbv zeta. split; [reflexivity|].
  apply (user_rows_stable Sample.service Sample.no_gravatar Sample.any_match
           (Request := unit)).
  reflexivity.
Defined.

(** ** Signing up, confirming and logging in, one after the other *)

Lemma list_find_new_row (email : string) (us : list User.t) (new : User.t) :
  list_find (fun u => JStr (User.email u) = JStr email) us = None ->
  User.email new = email ->
  list_find (fun u => JStr (User.email u) = JStr email) (us ++ [new])
  = Some (length us, new).
Proof.
  intros Hnone Hnew. rewrite list_find_app_r by exact Hnone.
  cbn. rewrite decide_True by (rewrite Hnew; reflexivity). reflexivity.
Qed.

Lemma login_found (auth_service : Auth) (body : OAuth2PasswordRequestForm)
    (now : Z) (w : World) (i : nat) (u : User.t) :
  list_find (fun x => JStr (User.email x) = JStr (form_username body))
    (users w) = Some (i, u) ->
  User.confirmed u = true ->
  services_auth.verify_password auth_service (form_password body)
    (User.password u) = true ->
  let refresh :=
    services_auth.create_refresh_token auth_service
      [("sub", JStr (User.email u))] None now in
  routes_auth.login auth_service body now w
  = (inr {| access_token :=
              services_auth.create_access_token auth_service
                [("sub", JStr (User.email u))] None now;
            refresh_token := refresh;
            token_type := "bearer" |},
     with_users (alter (User.set_refresh_token (Some refresh)) i) w).
Proof.
  intros Hfind Hc Hv. cbv zeta.
  unfold routes_auth.login, bind, repository_users.get_user_by_email, gets,
    repository_users.update_token, modify, raise, ret.
  rewrite Hfind. cbn [fst snd]. rewrite Hc, Hv. reflexivity.
Qed.


(** X9: a signup whose email no row has answers with the new user and
    stores exactly one new row, at the end of the table: it holds the
    hash of the password, not the password; the rows that were there are
    as they were; one confirmation mail to the new address is queued; and
    a lookup by that email now finds the new row. *)
Theorem signup_new_email (auth_service : Auth)
    (gravatar : string -> option string) (body : UserSchema)
    (base_url : string) (w : World) :
  list_find (fun u => JStr (User.email u) = JStr (body_email body)) (users w)
    = None ->
  let r := routes_auth.signup auth_service gravatar body base_url w in
  exists new,
    fst r = inr new
    /\ User.email new = body_email body
    /\ User.username new = body_username body
    /\ User.password new
       = services_auth.get_password_hash auth_service (body_password body)
    /\ users (snd r) = (users w ++ [new])%list
    /\ background (snd r)
       = (background w ++ [ {| mail_to := body_email body;
                               mail_username := body_username body;
                               mail_host := base_url |} ])%list
    /\ contacts (snd r) = contacts w /\ cache (snd r) = cache w
    /\ repository_users.get_user_by_email (JStr (body_email body)) (snd r)
       = (inr (Some (length (users w), new)), snd r).
Proof.
  intros Hnone. cbv zeta.
  unfold routes_auth.signup, try_except, bind,
    repository_users.create_user, bind,
    repository_users.get_user_by_email, gets, modify, raise, ret.
  rewrite Hnone. cbn [fst snd users with_users with_background].
  eexists. split; [reflexivity|]. repeat split.
  f_equal. f_equal. apply list_find_new_row; [exact Hnone | reflexivity].
Qed.

Lemma signup_new_email_witness :
  let body :=
    {| body_username := "paul"; body_email := "paul@x.com";
       body_password := "secret3" |} in
  let r :=
    routes_auth.signup Sample.service Sample.no_gravatar body "http://host/"
      Sample.world in
  exists new,
    fst r = inr new
    /\ User.password new = "bcrypt:secret3"
    /\ users (snd r) = [Sample.john; Sample.mary; new].
Proof.
  cbv zeta.
  destruct (signup_new_email Sample.service Sample.no_gravatar
              {| body_username := "paul"; body_email := "paul@x.com";
                 body_password := "secret3" |} "http://host/" Sample.world
              eq_refl)
    as (new & Hnew & _ & _ & Hpw & Husers & _).
  exists new. split; [exact Hnew|]. split; [exact Hpw | exact Husers].
Defined.



Lemma list_find_set_refresh_token (email : JVal) (rows : list User.t)
    (i : nat) (u : User.t) (tok : option Token) :
  list_find (fun x => JStr (User.email x) = email) rows = Some (i, u) ->
  list_find (fun x => JStr (User.email x) = email)
    (alter (User.set_refresh_token tok) i rows)
  = Some (i, User.set_refresh_token tok u).
Proof.
  intros Hfind. apply list_find_Some in Hfind as (Hlook & Hu & Hbefore).
  apply list_find_Some. split; [|split].
  - rewrite list_lookup_alter, decide_True by reflexivity.
    rewrite Hlook. reflexivity.
  - exact Hu.
  - intros j x Hj Hlt. rewrite list_lookup_alter_ne in Hj by lia.
    exact (Hbefore j x Hj Hlt).
Qed.

(** The access-scope verification of an access token of the service. *)
Lemma access_token_subject (self : Auth) (email : string) (now now' : Z) :
  now' <= now + 900 ->
  services_auth.get_current_user_subject self
    (services_auth.create_access_token self [("sub", JStr email)] None now)
    now' = inr (JStr email).
Proof.
  intros Hle. unfold services_auth.get_current_user_subject.
  rewrite (decode_access_token self email now now' Hle). reflexivity.
Qed.

(** X11: the access token a login returns authenticates as the user who
    logged in. Presented to the gate within 900 seconds, with no live cache
    entry for the address, it resolves to a confirmed user with the email
    of the login form, whose row holds the refresh token of that login. *)
Theorem login_then_gate (auth_service : Auth)
    (body : OAuth2PasswordRequestForm) (now now' : Z) (w w1 : World)
    (tokens : TokenSchema) :
  routes_auth.login auth_service body now w = (inr tokens, w1) ->
  now' <= now + 900 ->
  redis.get (form_username body) now' (cache w1) = None ->
  exists u,
    fst (services_auth.get_current_user auth_service (access_token tokens)
           now' w1) = inr u
    /\ User.email u = form_username body
    /\ User.confirmed u = true
    /\ User.refresh_token u = Some (refresh_token tokens).
Proof.
  intros Hlogin Hle Hmiss.
  destruct (list_find
              (fun x => JStr (User.email x) = JStr (form_username body))
              (users w)) as [[i u]|] eqn:Hfind.
  2: { revert Hlogin.
       unfold routes_auth.login, bind, repository_users.get_user_by_email,
         gets, raise. rewrite Hfind. discriminate. }
  destruct (User.confirmed u) eqn:Hc.
  2: { revert Hlogin.
       unfold routes_auth.login, bind, repository_users.get_user_by_email,
         gets, raise. rewrite Hfind. cbn [fst snd]. rewrite Hc.
       discriminate. }
  destruct (services_auth.verify_password auth_service (form_password body)
              (User.password u)) eqn:Hv.
  2: { revert Hlogin.
       unfold routes_auth.login, bind, repository_users.get_user_by_email,
         gets, raise. rewrite Hfind. cbn [fst snd]. rewrite Hc, Hv.
       discriminate. }
  rewrite (login_found auth_service body now w i u Hfind Hc Hv) in Hlogin.
  cbv zeta in Hlogin. injection Hlogin as <- <-.
  pose proof Hfind as Hu.
  apply list_find_Some in Hu as (_ & Hu & _).
  assert (User.email u = form_username body) as Hemail by congruence.
  cbn [access_token refresh_token].
  unfold services_auth.get_current_user, bind, lift,
    repository_users.get_user_by_email, gets, modify, raise, ret.
  rewrite (access_token_subject auth_service (User.email u) now now' Hle).
  cbn [py_str fst snd]. rewrite Hemail. cbn [cache with_users] in Hmiss |- *.
  rewrite Hmiss. cbn [users with_users].
  rewrite (list_find_set_refresh_token _ _ i u _ Hfind). cbn [fst snd].
  eexists. split; [reflexivity|]. repeat split; assumption.
Qed.

Lemma login_then_gate_witness :
  let r := routes_auth.login Sample.service Sample.johns_form 1000
             Sample.world in
  let access :=
    services_auth.create_access_token Sample.service
      (Sample.sub "john@x.com") None 1000 in
  exists u,
    fst (services_auth.get_current_user Sample.service access 1900 (snd r))
      = inr u
    /\ User.email u = "john@x.com".
Proof.
  cbv zeta.
  destruct (login_then_gate Sample.service Sample.johns_form 1000 1900
              Sample.world _ _ eq_refl) as (u & Hu & Hemail & _);
    [lia | reflexivity |].
  exists u. split; [exact Hu | exact Hemail].
Defined.

(** ** Asking for the confirmation mail again, and confirming nobody *)

(** X12: a request for a new confirmation mail queues exactly one mail to
    the user when the user is not confirmed, answers without queueing
    anything when the user is confirmed, and for an address no user has
    ends in [AttributeError], an unhandled error: the handler reads
    [user.confirmed] before it tests whether there is a user. The tables
    and the cache are never touched. *)
Theorem request_email_outcomes (email base_url : string) (w : World) :
  let find :=
    list_find (fun u => JStr (User.email u) = JStr email) (users w) in
  (find = None ->
   routes_auth.request_email email base_url w
   = (inl (AttributeError "confirmed"), w))
  /\
  (forall i u,
     find = Some (i, u) -> User.confirmed u = true ->
     routes_auth.request_email email base_url w
     = (inr "Your email is already confirmed", w))
  /\
  (forall i u,
     find = Some (i, u) -> User.confirmed u = false ->
     routes_auth.request_email email base_url w
     = (inr "Check your email for confirmation.",
        with_background
          (fun q => (q ++ [ {| mail_to := User.email u;
                               mail_username := User.username u;
                               mail_host := base_url |} ])%list) w)).
Proof.
  cbv zeta.
  unfold routes_auth.request_email, bind,
    repository_users.get_user_by_email, gets, modify, raise, ret.
  split; [|split].
  - intros ->. reflexivity.
  - intros i u -> Hc. cbn [fst snd]. rewrite Hc. reflexivity.
  - intros i u -> Hc. cbn [fst snd]. rewrite Hc. reflexivity.
Qed.

Lemma request_email_outcomes_witness :
  routes_auth.request_email "nobody@x.com" "http://host/" Sample.world
    = (inl (AttributeError "confirmed"), Sample.world)
  /\ routes_auth.request_email "john@x.com" "http://host/" Sample.world
     = (inr "Your email is already confirmed", Sample.world)
  /\ background
       (snd (routes_auth.request_email "mary@x.com" "http://host/"
               Sample.world))
     = [ {| mail_to := "mary@x.com"; mail_username := "mary";
            mail_host := "http://host/" |} ].
Proof.
  destruct (request_email_outcomes "nobody@x.com" "http://host/"
              Sample.world) as (Hnobody & _).
  destruct (request_email_outcomes "john@x.com" "http://host/"
              Sample.world) as (_ & Hjohn & _).
  destruct (request_email_outcomes "mary@x.com" "http://host/"
              Sample.world) as (_ & _ & Hmary).
  split; [apply Hnobody; reflexivity|].
  split; [apply (Hjohn 0%nat Sample.john); reflexivity|].
  rewrite (Hmary 1%nat Sample.mary); reflexivity.
Defined.

(** X13: a valid confirmation token whose subject is not the email of any
    user is answered 400 with [USER_NOT_FOUND], and nothing changes. *)
Theorem confirmed_email_unknown_user (auth_service : Auth) (token : Token)
    (now : Z) (w : World) (email : JVal) :
  services_auth.get_email_from_token auth_service token now = inr email ->
  list_find (fun x => JStr (User.email x) = email) (users w) = None ->
  routes_auth.confirmed_email auth_service token now w
  = (inl (HTTPException status.HTTP_400_BAD_REQUEST
            (message messages.USER_NOT_FOUND) []), w).
Proof.
  intros Hdec Hnone.
  unfold routes_auth.confirmed_email, bind, lift,
    repository_users.get_user_by_email, gets, raise.
  rewrite Hdec, Hnone. reflexivity.
Qed.

Lemma confirmed_email_unknown_user_witness :
  routes_auth.confirmed_email Sample.service
    (services_auth.create_email_token Sample.service
       (Sample.sub "nobody@x.com") 1000) 1500 Sample.world
  = (inl (HTTPException 400 (message messages.USER_NOT_FOUND) []),
     Sample.world).
Proof.
  apply (confirmed_email_unknown_user Sample.service _ 1500 Sample.world
           (JStr "nobody@x.com")); reflexivity.
Defined.

(** ** Reading contacts *)

Lemma gate_tables (self : Auth) (token : Token) (now : Z) (w w1 : World)
    (r : Exc + User.t) :
  services_auth.get_current_user self token now w = (r, w1) ->
  users w1 = users w /\ contacts w1 = contacts w
  /\ background w1 = background w.
Proof.
  intros Hgate.
  pose proof (get_current_user_keeps_tables self token now w) as Hkeep.
  cbv zeta in Hkeep. rewrite Hgate in Hkeep. exact Hkeep.
Qed.

(** X14: the caller's own listing. An answer means that the caller was
    resolved, that [limit] is between 10 and 500 and [offset] not negative,
    and it holds at most [limit] contacts, all of them rows of the table
    in table order and all of them owned by the caller. A [limit] or
    [offset] out of range is refused with a validation error once the
    caller is resolved. *)
Theorem get_contacts_listing (auth_service : Auth)
    (ilike : string -> string -> bool) (token : Token) (limit offset : Z)
    (query : option string) (now : Z) (w : World) :
  (forall l,
     fst (routes_contacts.get_contacts auth_service ilike token limit offset
            query now w) = inr l ->
     exists A,
       fst (services_auth.get_current_user auth_service token now w) = inr A
       /\ 10 <= limit <= 500 /\ 0 <= offset
       /\ Z.of_nat (length l) <= limit
       /\ l `sublist_of` contacts w
       /\ (forall c, c ∈ l -> Contact.user_id c = User.id A))
  /\
  (forall A w1,
     services_auth.get_current_user auth_service token now w = (inr A, w1) ->
     ~ (10 <= limit <= 500 /\ 0 <= offset) ->
     routes_contacts.get_contacts auth_service ilike token limit offset
       query now w = (inl RequestValidationError, w1)).
Proof.
  split.
  - intros l.
    unfold routes_contacts.get_contacts, bind, routes_contacts.validate.
    destruct (services_auth.get_current_user auth_service token now w)
      as [[e | A] w1] eqn:Hgate; [discriminate|].
    destruct (gate_tables _ _ _ _ _ _ Hgate) as (_ & Hcontacts & _).
    destruct ((10 <=? limit) && (limit <=? 500) && (0 <=? offset))
      eqn:Hvalid; [|discriminate].
    apply andb_true_iff in Hvalid as [Hvalid Hoffset].
    apply andb_true_iff in Hvalid as [Hlow Hhigh].
    apply Z.leb_le in Hlow, Hhigh, Hoffset.
    unfold ret at 1, repository_contacts.get_contacts, gets. cbn [fst].
    intros Hl. injection Hl as <-. exists A.
    split; [reflexivity|]. split; [lia|]. split; [exact Hoffset|].
    rewrite Hcontacts. unfold repository_contacts.page. split; [|split].
    + rewrite length_take. lia.
    + etransitivity; [apply sublist_take|].
      etransitivity; [apply sublist_drop|]. apply sublist_filter.
    + intros c Hc. apply subseteq_take, subseteq_drop in Hc.
      apply list_elem_of_filter in Hc as [Hp _].
      apply andb_prop_elim in Hp as [Hown _].
      unfold repository_contacts.owned_by in Hown.
      apply bool_decide_unpack in Hown. exact Hown.
  - intros A w1 Hgate Hout.
    unfold routes_contacts.get_contacts, bind, routes_contacts.validate.
    rewrite Hgate.
    destruct ((10 <=? limit) && (limit <=? 500) && (0 <=? offset))
      eqn:Hvalid; [|reflexivity].
    exfalso. apply Hout.
    apply andb_true_iff in Hvalid as [Hvalid Hoffset].
    apply andb_true_iff in Hvalid as [Hlow Hhigh].
    apply Z.leb_le in Hlow, Hhigh, Hoffset. lia.
Qed.

(** ** Sample requests of Mary, who owns contact 7 *)

Lemma get_contacts_listing_witness :
  let marys_token :=
    services_auth.create_access_token Sample.service
      (Sample.sub "mary@x.com") None 1000 in
  let seen :=
    with_cache
      (insert "mary@x.com"
         {| value := Sample.mary; expire_at := Some (1001 + 300) |})
      Sample.world in
  routes_contacts.get_contacts Sample.service Sample.any_match
    marys_token 10 0 None 1001 Sample.world
    = (inr [Sample.marys_contact], seen)
  /\ routes_contacts.get_contacts Sample.service Sample.any_match
       marys_token 5 0 None 1001 Sample.world
     = (inl RequestValidationError, seen).
Proof.
  cbv zeta. split; [vm_compute; reflexivity|].
  destruct (get_contacts_listing Sample.service Sample.any_match
              (services_auth.create_access_token Sample.service
                 (Sample.sub "mary@x.com") None 1000)
              5 0 None 1001 Sample.world) as [_ Hrefused].
  apply (Hrefused Sample.mary); [vm_compute; reflexivity | lia].
Defined.

(** X15: the endpoints that read (the caller's listing, the listing of all
    contacts, the lookup of one contact and the profile of the caller)
    leave both tables and the mail queue as they were, whatever they
    answer; only the cache may change. *)
Theorem read_endpoints_keep_tables (auth_service : Auth)
    (ilike : string -> string -> bool) {Request : Type} (request : Request)
    (token : Token) (limit offset contact_id : Z) (query : option string)
    (now : Z) (w : World) :
  let kept w' :=
    users w' = users w /\ contacts w' = contacts w
    /\ background w' = background w in
  kept (snd (routes_contacts.get_contacts auth_service ilike token limit
               offset query now w))
  /\ kept (snd (routes_contacts.get_all_contacts auth_service ilike request
                  token limit offset query now w))
  /\ kept (snd (routes_contacts.get_contact auth_service token contact_id
                  now w))
  /\ kept (snd (routes_users.get_current_user auth_service token now w)).
Proof.
  cbv zeta.
  unfold routes_contacts.get_contacts, routes_contacts.get_all_contacts,
    routes_contacts.get_contact, routes_users.get_current_user, bind, lift,
    routes_contacts.validate, repository_contacts.get_contacts,
    repository_contacts.get_all_contacts, repository_contacts.get_contact,
    gets, raise, ret.
  destruct (services_auth.get_current_user auth_service token now w)
    as [[e | A] w1] eqn:Hgate;
    pose proof (gate_tables _ _ _ _ _ _ Hgate) as Hkept.
  - repeat split; apply Hkept.
  - split; [|split; [|split]]; split_handler; exact Hkept.
Qed.

(** ** Writing contacts *)

Lemma head_filter_find {A} (P : A -> Prop) `{forall x, Decision (P x)}
    (l : list A) :
  head (filter P l) = snd <$> list_find P l.
Proof.
  induction l as [|x l IH]; [reflexivity|].
  rewrite filter_cons. cbn [list_find]. destruct (decide (P x)).
  - reflexivity.
  - rewrite IH. destruct (list_find P l) as [[i y]|]; reflexivity.
Qed.

Lemma filter_none {A} (P : A -> Prop) `{forall x, Decision (P x)}
    (l : list A) :
  (forall x, x ∈ l -> ~ P x) -> filter P l = [].
Proof.
  induction l as [|x l IH]; intros Hnone; [reflexivity|].
  rewrite filter_cons_False by (apply Hnone; left).
  apply IH. intros y Hy. apply Hnone. right. exact Hy.
Qed.

(** The repository's lookup and the row its writers select agree. *)
Lemma get_contact_select (contact_id : Z) (user : User.t) (w : World) :
  fst (repository_contacts.get_contact contact_id user w)
  = inr (snd <$> list_find
                   (fun c => bool_decide (Contact.id c = contact_id)
                             && repository_contacts.owned_by user c)
                   (contacts w)).
Proof.
  unfold repository_contacts.get_contact, gets. cbn [fst].
  rewrite head_filter_find. reflexivity.
Qed.

Lemma selected_row (contact_id : Z) (user : User.t) (cs : list Contact.t)
    (i : nat) (c : Contact.t) :
  list_find (fun c => bool_decide (Contact.id c = contact_id)
                      && repository_contacts.owned_by user c) cs
    = Some (i, c) ->
  cs !! i = Some c /\ Contact.id c = contact_id
  /\ Contact.user_id c = User.id user.
Proof.
  intros Hfind. apply list_find_Some in Hfind as (Hlook & Hp & _).
  apply andb_prop_elim in Hp as [Hid Hown].
  unfold repository_contacts.owned_by in Hown.
  apply bool_decide_unpack in Hid. apply bool_decide_unpack in Hown.
  done.
Qed.

Lemma next_id_above (cs : list Contact.t) (c : Contact.t) :
  c ∈ cs -> Contact.id c < repository_contacts.next_id cs.
Proof.
  unfold repository_contacts.next_id.
  induction cs as [|c0 cs IH]; intros Hin.
  - apply elem_of_nil in Hin. destruct Hin.
  - cbn [foldr]. apply elem_of_cons in Hin as [-> | Hin].
    + lia.
    + specialize (IH Hin). lia.
Qed.

Lemma next_id_positive (cs : list Contact.t) :
  1 <= repository_contacts.next_id cs.
Proof.
  unfold repository_contacts.next_id.
  induction cs as [|c0 cs IH]; cbn [foldr]; lia.
Qed.

(** The row a creation adds, for the caller the gate resolved. *)
Lemma create_contact_route (auth_service : Auth) (token : Token)
    (body : ContactSchema.t) (now : Z) (w w1 : World) (A : User.t) :
  services_auth.get_current_user auth_service token now w = (inr A, w1) ->
  let c :=
    Contact.mk (repository_contacts.next_id (contacts w))
      (ContactSchema.name body) (ContactSchema.lastname body)
      (ContactSchema.email body) (ContactSchema.phone body)
      (ContactSchema.birthdate body) (ContactSchema.others_info body)
      (default false (ContactSchema.completed body)) now now (User.id A) in
  routes_contacts.create_contact auth_service token body now w
  = (inr c, with_contacts (fun cs => (cs ++ [c])%list) w1).
Proof.
  intros Hgate. cbv zeta.
  destruct (gate_tables _ _ _ _ _ _ Hgate) as (_ & Hcontacts & _).
  unfold routes_contacts.create_contact, bind,
    repository_contacts.create_contact, bind, gets, modify, ret.
  rewrite Hgate. cbn [fst snd]. rewrite Hcontacts. reflexivity.
Qed.

(** X16: a created contact is owned by its creator and can be read back.
    The creation answers with a contact that carries the fields of the
    body ([completed] as the body sends it), the caller as owner and an
    identifier of at least 1 that no contact of the table has; the table
    grows by that row at its end; and the repository's lookup of that
    identifier for the caller finds it. *)
Theorem create_then_get (auth_service : Auth) (token : Token)
    (body : ContactSchema.t) (now : Z) (w w1 : World) (A : User.t) :
  services_auth.get_current_user auth_service token now w = (inr A, w1) ->
  exists c w2,
    routes_contacts.create_contact auth_service token body now w
      = (inr c, w2)
    /\ Contact.user_id c = User.id A
    /\ Contact.name c = ContactSchema.name body
    /\ Contact.lastname c = ContactSchema.lastname body
    /\ Contact.email c = ContactSchema.email body
    /\ Contact.phone c = ContactSchema.phone body
    /\ Contact.birthdate c = ContactSchema.birthdate body
    /\ Contact.others_info c = ContactSchema.others_info body
    /\ (forall sent, ContactSchema.completed body = Some sent ->
                     Contact.completed c = sent)
    /\ 1 <= Contact.id c
    /\ (forall c', c' ∈ contacts w -> Contact.id c' <> Contact.id c)
    /\ contacts w2 = (contacts w ++ [c])%list
    /\ users w2 = users w
    /\ repository_contacts.get_contact (Contact.id c) A w2
       = (inr (Some c), w2).
Proof.
  intros Hgate.
  destruct (gate_tables _ _ _ _ _ _ Hgate) as (Husers & Hcontacts & _).
  eexists. eexists.
  split; [apply (create_contact_route _ _ _ _ _ _ _ Hgate)|].
  cbn [Contact.user_id Contact.name Contact.lastname Contact.email
       Contact.phone Contact.birthdate Contact.others_info Contact.id
       Contact.completed contacts users with_contacts].
  do 7 (split; [reflexivity|]).
  split; [intros sent ->; reflexivity|].
  split; [apply next_id_positive|].
  assert (forall c', c' ∈ contacts w ->
            Contact.id c' <> repository_contacts.next_id (contacts w))
    as Hfresh.
  { intros c' Hin. pose proof (next_id_above _ _ Hin). lia. }
  split; [exact Hfresh|].
  split; [rewrite Hcontacts; reflexivity|]. split; [exact Husers|].
  unfold repository_contacts.get_contact, gets.
  cbn [contacts with_contacts]. rewrite Hcontacts. f_equal. f_equal.
  rewrite filter_app.
  assert (filter
            (fun c => bool_decide
                        (Contact.id c
                         = repository_contacts.next_id (contacts w))
                      && repository_contacts.owned_by A c) (contacts w)
          = []) as ->.
  { apply filter_none. intros c' Hin Hp.
    apply andb_prop_elim in Hp as [Hid _].
    apply bool_decide_unpack in Hid. exact (Hfresh c' Hin Hid). }
  cbn [app]. rewrite filter_cons_True; [reflexivity|].
  apply andb_prop_intro. split; apply bool_decide_pack; reflexivity.
Qed.

Lemma create_then_get_witness :
  let marys_token :=
    services_auth.create_access_token Sample.service
      (Sample.sub "mary@x.com") None 1000 in
  let body :=
    ContactSchema.mk "John" "Doe" "john.doe@example.com" "1234567"
      "01.01.1990" "Some additional info" (Some true) in
  exists c w2,
    routes_contacts.create_contact Sample.service marys_token body 1001
      Sample.world = (inr c, w2)
    /\ Contact.user_id c = 2 /\ Contact.name c = "John"
    /\ Contact.completed c = true
    /\ repository_contacts.get_contact (Contact.id c) Sample.mary w2
       = (inr (Some c), w2).
Proof.
  cbv zeta.
  destruct (create_then_get Sample.service
              (services_auth.create_access_token Sample.service
                 (Sample.sub "mary@x.com") None 1000)
              (ContactSchema.mk "John" "Doe" "john.doe@example.com"
                 "1234567" "01.01.1990" "Some additional info" (Some true))
              1001 Sample.world
              (with_cache
                 (insert "mary@x.com"
                    {| value := Sample.mary;
                       expire_at := Some (1001 + 300) |})
                 Sample.world)
              Sample.mary)
    as (c & w2 & Hcreate & Howner & Hname & _ & _ & _ & _ & _ & Hsent & _
        & _ & _ & _ & Hget).
  { vm_compute. reflexivity. }
  exists c, w2. split; [exact Hcreate|]. split; [exact Howner|].
  split; [exact Hname|]. split; [exact (Hsent true eq_refl) | exact Hget].
Defined.

(** What an update does to the table, for the caller the gate resolved:
    nothing, or it rewrites one row of the caller's, keeping the row's
    identifier and owner. *)
Lemma update_contact_table (auth_service : Auth) (token : Token)
    (body : ContactUpdateSchema.t) (contact_id now : Z) (w w1 : World)
    (A : User.t) :
  services_auth.get_current_user auth_service token now w = (inr A, w1) ->
  let w2 :=
    snd (routes_contacts.update_contact auth_service token body contact_id
           now w) in
  users w2 = users w
  /\ (contacts w2 = contacts w
      \/ exists i c c',
           contacts w !! i = Some c /\ Contact.user_id c = User.id A
           /\ Contact.id c' = Contact.id c
           /\ Contact.user_id c' = Contact.user_id c
           /\ contacts w2 = <[i := c']> (contacts w)).
Proof.
  intros Hgate. cbv zeta.
  destruct (gate_tables _ _ _ _ _ _ Hgate) as (Husers & Hcontacts & _).
  unfold routes_contacts.update_contact, bind, routes_contacts.validate,
    repository_contacts.update_contact, bind,
    repository_contacts.select_contact, gets, modify, raise, ret.
  rewrite Hgate. destruct (1 <=? contact_id); cbn [fst snd]; [|auto].
  rewrite Hcontacts.
  destruct (list_find
              (fun c => bool_decide (Contact.id c = contact_id)
                        && repository_contacts.owned_by A c) (contacts w))
    as [[i c]|] eqn:Hfind; cbn [fst snd users contacts with_contacts];
    [|auto].
  split; [exact Husers|]. right.
  destruct (selected_row contact_id A (contacts w) i c Hfind)
    as (Hlook & _ & Hown).
  eexists i, c, _. split; [exact Hlook|]. split; [exact Hown|].
  split; [|split].
  3: rewrite Hcontacts; reflexivity.
  all: reflexivity.
Qed.

(** What a deletion does to the table: nothing, or it removes one row of
    the caller's. *)
Lemma delete_contact_table (auth_service : Auth) (token : Token)
    (contact_id now : Z) (w w1 : World) (A : User.t) :
  services_auth.get_current_user auth_service token now w = (inr A, w1) ->
  let w2 :=
    snd (routes_contacts.delete_contact auth_service token contact_id now w)
  in
  users w2 = users w
  /\ (contacts w2 = contacts w
      \/ exists i c,
           contacts w !! i = Some c /\ Contact.user_id c = User.id A
           /\ Contact.id c = contact_id
           /\ contacts w2 = delete i (contacts w)).
Proof.
  intros Hgate. cbv zeta.
  destruct (gate_tables _ _ _ _ _ _ Hgate) as (Husers & Hcontacts & _).
  unfold routes_contacts.delete_contact, bind, routes_contacts.validate,
    repository_contacts.delete_contact, bind,
    repository_contacts.get_contact,
    repository_contacts.select_contact, gets, modify, raise, ret.
  rewrite Hgate. destruct (1 <=? contact_id); cbn [fst snd]; [|auto].
  rewrite head_filter_find, Hcontacts.
  destruct (list_find
              (fun c => bool_decide (Contact.id c = contact_id)
                        && repository_contacts.owned_by A c) (contacts w))
    as [[i c]|] eqn:Hfind; cbn [fmap option_fmap option_map fst snd];
    [|auto].
  rewrite Hcontacts, Hfind. cbn [fst snd users contacts with_contacts].
  split; [exact Husers|]. right.
  destruct (selected_row contact_id A (contacts w) i c Hfind)
    as (Hlook & Hid & Hown).
  exists i, c. rewrite Hcontacts. done.
Qed.

Lemma find_of_get_contact (contact_id : Z) (user : User.t) (w : World)
    (found : option Contact.t) :
  fst (repository_contacts.get_contact contact_id user w) = inr found ->
  match found with
  | None =>
      list_find (fun c => bool_decide (Contact.id c = contact_id)
                          && repository_contacts.owned_by user c)
        (contacts w) = None
  | Some c =>
      exists i,
        list_find (fun c => bool_decide (Contact.id c = contact_id)
                            && repository_contacts.owned_by user c)
          (contacts w) = Some (i, c)
  end.
Proof.
  rewrite get_contact_select. intros Hget. injection Hget as Hget.
  destruct (list_find _ (contacts w)) as [[i c]|]; cbn in Hget; subst found.
  - exists i. reflexivity.
  - reflexivity.
Qed.

(** X17: an update reaches only a contact of the caller. For an identifier
    (at least 1) under which the caller's lookup finds nothing, be it
    unused or the identifier of someone else's contact, the answer is 404
    and the table is as it was. For a contact the caller's lookup finds,
    the answer is that contact with every field of the body written, the
    update time set to the instant of the request, and the identifier, the
    owner and the creation time kept; exactly that row is replaced. *)
Theorem update_contact_outcomes (auth_service : Auth) (token : Token)
    (body : ContactUpdateSchema.t) (contact_id now : Z) (w w1 : World)
    (A : User.t) :
  services_auth.get_current_user auth_service token now w = (inr A, w1) ->
  1 <= contact_id ->
  (fst (repository_contacts.get_contact contact_id A w) = inr None ->
   routes_contacts.update_contact auth_service token body contact_id now w
   = (inl (HTTPException status.HTTP_404_NOT_FOUND
             (text "Contact not found") []), w1))
  /\
  (forall c,
     fst (repository_contacts.get_contact contact_id A w) = inr (Some c) ->
     exists i c',
       contacts w !! i = Some c
       /\ routes_contacts.update_contact auth_service token body contact_id
            now w
          = (inr c', with_contacts (fun cs => <[i := c']> cs) w1)
       /\ Contact.id c' = Contact.id c
       /\ Contact.user_id c' = Contact.user_id c
       /\ Contact.created_at c' = Contact.created_at c
       /\ Contact.updated_at c' = now
       /\ Contact.name c' = ContactUpdateSchema.name body
       /\ Contact.lastname c' = ContactUpdateSchema.lastname body
       /\ Contact.email c' = ContactUpdateSchema.email body
       /\ Contact.phone c' = ContactUpdateSchema.phone body
       /\ Contact.birthdate c' = ContactUpdateSchema.birthdate body
       /\ Contact.others_info c' = ContactUpdateSchema.others_info body
       /\ Contact.completed c' = ContactUpdateSchema.completed body).
Proof.
  intros Hgate Hpos.
  destruct (gate_tables _ _ _ _ _ _ Hgate) as (_ & Hcontacts & _).
  apply Z.leb_le in Hpos.
  split.
  - intros Hget. apply find_of_get_contact in Hget.
    unfold routes_contacts.update_contact, bind, routes_contacts.validate,
      repository_contacts.update_contact, bind,
      repository_contacts.select_contact, gets, modify, raise, ret.
    rewrite Hgate, Hpos. cbn [fst snd]. rewrite Hcontacts, Hget.
    reflexivity.
  - intros c Hget. apply find_of_get_contact in Hget as [i Hfind].
    destruct (selected_row contact_id A (contacts w) i c Hfind)
      as (Hlook & _).
    exists i. eexists. split; [exact Hlook|]. split.
    + unfold routes_contacts.update_contact, bind, routes_contacts.validate,
        repository_contacts.update_contact, bind,
        repository_contacts.select_contact, gets, modify, raise, ret.
      rewrite Hgate, Hpos. cbn [fst snd]. rewrite Hcontacts, Hfind.
      reflexivity.
    + repeat split.
Qed.

Lemma update_contact_outcomes_witness :
  let token_of email :=
    services_auth.create_access_token Sample.service (Sample.sub email)
      None 1000 in
  let body :=
    ContactUpdateSchema.mk "Paula" "Jones" "paula@x.com" "7654321"
      "02.02.1990" "a colleague" true in
  fst (routes_contacts.update_contact Sample.service
         (token_of "john@x.com") body 7 1001 Sample.world)
    = inl (HTTPException 404 (text "Contact not found") [])
  /\ exists c',
       fst (routes_contacts.update_contact Sample.service
              (token_of "mary@x.com") body 7 1001 Sample.world) = inr c'
       /\ Contact.name c' = "Paula" /\ Contact.user_id c' = 2.
Proof.
  cbv zeta. split.
  - destruct (update_contact_outcomes Sample.service
                (services_auth.create_access_token Sample.service
                   (Sample.sub "john@x.com") None 1000)
                (ContactUpdateSchema.mk "Paula" "Jones" "paula@x.com"
                   "7654321" "02.02.1990" "a colleague" true)
                7 1001 Sample.world
                (with_cache
                   (insert "john@x.com"
                      {| value := Sample.john;
                         expire_at := Some (1001 + 300) |})
                   Sample.world)
                Sample.john) as [Hnone _];
      [vm_compute; reflexivity | lia |].
    rewrite Hnone; reflexivity.
  - destruct (update_contact_outcomes Sample.service
                (services_auth.create_access_token Sample.service
                   (Sample.sub "mary@x.com") None 1000)
                (ContactUpdateSchema.mk "Paula" "Jones" "paula@x.com"
                   "7654321" "02.02.1990" "a colleague" true)
                7 1001 Sample.world
                (with_cache
                   (insert "mary@x.com"
                      {| value := Sample.mary;
                         expire_at := Some (1001 + 300) |})
                   Sample.world)
                Sample.mary) as [_ Hsome];
      [vm_compute; reflexivity | lia |].
    destruct (Hsome Sample.marys_contact eq_refl)
      as (i & c' & _ & Hroute & _ & Howner & _ & _ & Hname & _).
    exists c'. rewrite Hroute. split; [reflexivity|].
    split; [exact Hname | exact Howner].
Defined.

Lemma removed_row_gone {A} (l : list A) (i : nat) (x : A) :
  NoDup l -> l !! i = Some x -> x ∉ delete i l.
Proof.
  intros Hnd Hi Hin. apply list_elem_of_lookup_1 in Hin as [j Hj].
  rewrite list_lookup_delete in Hj. destruct (decide (j < i)%nat).
  - assert (j = i) by (eapply NoDup_lookup; eassumption). lia.
  - assert (S j = i) by (eapply NoDup_lookup; eassumption). lia.
Qed.

(** X18: a deletion reaches only a contact of the caller. For an
    identifier (at least 1) under which the caller's lookup finds nothing
    the answer is 404 and the table is as it was. For a contact the
    caller's lookup finds, the answer is that contact and exactly its row
    is removed; when the identifiers of the table are pairwise distinct,
    the caller's lookup of that identifier finds nothing afterwards. *)
Theorem delete_contact_outcomes (auth_service : Auth) (token : Token)
    (contact_id now : Z) (w w1 : World) (A : User.t) :
  services_auth.get_current_user auth_service token now w = (inr A, w1) ->
  1 <= contact_id ->
  (fst (repository_contacts.get_contact contact_id A w) = inr None ->
   routes_contacts.delete_contact auth_service token contact_id now w
   = (inl (HTTPException status.HTTP_404_NOT_FOUND
             (text "Contact not found") []), w1))
  /\
  (forall c,
     fst (repository_contacts.get_contact contact_id A w) = inr (Some c) ->
     exists i,
       contacts w !! i = Some c
       /\ routes_contacts.delete_contact auth_service token contact_id now w
          = (inr (Some c), with_contacts (fun cs => delete i cs) w1)
       /\ (NoDup (Contact.id <$> contacts w) ->
           fst (repository_contacts.get_contact contact_id A
                  (with_contacts (fun cs => delete i cs) w1)) = inr None)).
Proof.
  intros Hgate Hpos.
  destruct (gate_tables _ _ _ _ _ _ Hgate) as (_ & Hcontacts & _).
  apply Z.leb_le in Hpos.
  split.
  - intros Hget. apply find_of_get_contact in Hget.
    unfold routes_contacts.delete_contact, bind, routes_contacts.validate,
      repository_contacts.get_contact, gets, raise, ret.
    rewrite Hgate, Hpos. cbn [fst snd].
    rewrite head_filter_find, Hcontacts, Hget. reflexivity.
  - intros c Hget. apply find_of_get_contact in Hget as [i Hfind].
    destruct (selected_row contact_id A (contacts w) i c Hfind)
      as (Hlook & Hid & Hown).
    exists i. split; [exact Hlook|]. split.
    + unfold routes_contacts.delete_contact, bind, routes_contacts.validate,
        repository_contacts.delete_contact, bind,
        repository_contacts.get_contact,
        repository_contacts.select_contact, gets, modify, raise, ret.
      rewrite Hgate, Hpos. cbn [fst snd].
      rewrite head_filter_find, Hcontacts, Hfind. cbn. rewrite Hcontacts, Hfind.
      reflexivity.
    + intros Hkeys.
      unfold repository_contacts.get_contact, gets.
      cbn [fst contacts with_contacts]. rewrite Hcontacts. f_equal.
      rewrite filter_none; [reflexivity|].
      intros c' Hin Hp. apply andb_prop_elim in Hp as [Hid' _].
      apply bool_decide_unpack in Hid'.
      assert (c' = c) as ->.
      { apply (same_key_same_row Contact.id (contacts w)).
        - exact Hkeys.
        - apply (list_elem_of_delete_inv _ i), Hin.
        - apply (list_elem_of_lookup_2 _ i), Hlook.
        - congruence. }
      revert Hin. apply removed_row_gone; [|exact Hlook].
      apply (NoDup_fmap_1 Contact.id), Hkeys.
Qed.

Lemma delete_contact_outcomes_witness :
  let token_of email :=
    services_auth.create_access_token Sample.service (Sample.sub email)
      None 1000 in
  fst (routes_contacts.delete_contact Sample.service (token_of "john@x.com")
         7 1001 Sample.world)
    = inl (HTTPException 404 (text "Contact not found") [])
  /\ fst (routes_contacts.delete_contact Sample.service
            (token_of "mary@x.com") 7 1001 Sample.world)
     = inr (Some Sample.marys_contact)
  /\ contacts (snd (routes_contacts.delete_contact Sample.service
                      (token_of "mary@x.com") 7 1001 Sample.world)) = [].
Proof.
  cbv zeta. split.
  - destruct (delete_contact_outcomes Sample.service
                (services_auth.create_access_token Sample.service
                   (Sample.sub "john@x.com") None 1000)
                7 1001 Sample.world
                (with_cache
                   (insert "john@x.com"
                      {| value := Sample.john;
                         expire_at := Some (1001 + 300) |})
                   Sample.world)
                Sample.john) as [Hnone _];
      [vm_compute; reflexivity | lia |].
    rewrite Hnone; reflexivity.
  - destruct (delete_contact_outcomes Sample.service
                (services_auth.create_access_token Sample.service
                   (Sample.sub "mary@x.com") None 1000)
                7 1001 Sample.world
                (with_cache
                   (insert "mary@x.com"
                      {| value := Sample.mary;
                         expire_at := Some (1001 + 300) |})
                   Sample.world)
                Sample.mary) as [_ Hsome];
      [vm_compute; reflexivity | lia |].
    destruct (Hsome Sample.marys_contact eq_refl) as (i & Hlook & Hroute & _).
    rewrite Hroute. split; [reflexivity|].
    cbn [snd contacts with_contacts Sample.world].
    destruct i as [|i]; [reflexivity | discriminate Hlook].
Defined.

(** X19: no write of a caller reaches a contact of someone else. Whatever
    a caller creates, updates or deletes, and whatever the answer, every
    contact that another user owns is in the table afterwards as it was
    before. *)
Theorem contacts_of_others_untouched (auth_service : Auth) (token : Token)
    (new_body : ContactSchema.t) (update_body : ContactUpdateSchema.t)
    (contact_id now : Z) (w w1 : World) (A : User.t) (c : Contact.t) :
  services_auth.get_current_user auth_service token now w = (inr A, w1) ->
  c ∈ contacts w ->
  Contact.user_id c <> User.id A ->
  c ∈ contacts (snd (routes_contacts.create_contact auth_service token
                       new_body now w))
  /\ c ∈ contacts (snd (routes_contacts.update_contact auth_service token
                          update_body contact_id now w))
  /\ c ∈ contacts (snd (routes_contacts.delete_contact auth_service token
                          contact_id now w)).
Proof.
  intros Hgate Hin Hother.
  destruct (gate_tables _ _ _ _ _ _ Hgate) as (_ & Hcontacts & _).
  pose proof Hin as Hat. apply list_elem_of_lookup_1 in Hat as [j Hj].
  split; [|split].
  - rewrite (create_contact_route _ _ _ _ _ _ _ Hgate).
    cbn [snd contacts with_contacts]. rewrite Hcontacts.
    apply elem_of_app. left. exact Hin.
  - destruct (update_contact_table auth_service token update_body contact_id
                now w w1 A Hgate)
      as (_ & [-> | (i & c0 & c' & Hi & Hown & _ & _ & ->)]);
      [exact Hin|].
    apply (list_elem_of_lookup_2 _ j).
    rewrite list_lookup_insert_ne; [exact Hj|].
    intros ->. congruence.
  - destruct (delete_contact_table auth_service token contact_id now w w1 A
                Hgate)
      as (_ & [-> | (i & c0 & Hi & Hown & _ & ->)]); [exact Hin|].
    destruct (decide (j < i)%nat) as [Hlt | Hge].
    + apply (list_elem_of_lookup_2 _ j).
      rewrite list_lookup_delete_lt by exact Hlt. exact Hj.
    + assert (j <> i) by (intros ->; congruence).
      apply (list_elem_of_lookup_2 _ (j - 1)).
      rewrite list_lookup_delete_ge by lia.
      replace (S (j - 1)) with j by lia. exact Hj.
Qed.

(** John (regular, user 1) creates a contact, then tries to update and to
    delete Mary's contact 7. *)
Lemma contacts_of_others_untouched_witness :
  let johns_token :=
    services_auth.create_access_token Sample.service
      (Sample.sub "john@x.com") None 1000 in
  let new_body :=
    ContactSchema.mk "John" "Doe" "john.doe@example.com" "1234567"
      "01.01.1990" "Some additional info" None in
  let update_body :=
    ContactUpdateSchema.mk "Paula" "Jones" "paula@x.com" "7654321"
      "02.02.1990" "a colleague" true in
  Sample.marys_contact
    ∈ contacts (snd (routes_contacts.create_contact Sample.service
                       johns_token new_body 1001 Sample.world))
  /\ Sample.marys_contact
       ∈ contacts (snd (routes_contacts.update_contact Sample.service
                          johns_token update_body 7 1001 Sample.world))
  /\ Sample.marys_contact
       ∈ contacts (snd (routes_contacts.delete_contact Sample.service
                          johns_token 7 1001 Sample.world)).
Proof.
  cbv zeta.
  apply (contacts_of_others_untouched Sample.service _ _ _ 7 1001
           Sample.world
           (with_cache
              (insert "john@x.com"
                 {| value := Sample.john; expire_at := Some (1001 + 300) |})
              Sample.world)
           Sample.john Sample.marys_contact).
  - vm_compute. reflexivity.
  - apply list_elem_of_here.
  - discriminate.
Defined.

(** X20: the identifiers of the contact table stay pairwise distinct under
    every write: a creation takes an identifier above all those in the
    table, an update keeps the identifier of the row it rewrites, and a
    deletion only removes a row. *)
Theorem contact_ids_stay_distinct (auth_service : Auth) (token : Token)
    (new_body : ContactSchema.t) (update_body : ContactUpdateSchema.t)
    (contact_id now : Z) (w w1 : World) (A : User.t) :
  services_auth.get_current_user auth_service token now w = (inr A, w1) ->
  NoDup (Contact.id <$> contacts w) ->
  NoDup (Contact.id <$>
           contacts (snd (routes_contacts.create_contact auth_service token
                            new_body now w)))
  /\ NoDup (Contact.id <$>
              contacts (snd (routes_contacts.update_contact auth_service
                               token update_body contact_id now w)))
  /\ NoDup (Contact.id <$>
              contacts (snd (routes_contacts.delete_contact auth_service
                               token contact_id now w))).
Proof.
  intros Hgate Hkeys.
  destruct (gate_tables _ _ _ _ _ _ Hgate) as (_ & Hcontacts & _).
  split; [|split].
  - rewrite (create_contact_route _ _ _ _ _ _ _ Hgate).
    cbn [snd contacts with_contacts]. rewrite Hcontacts, fmap_app.
    apply NoDup_app. split; [exact Hkeys|]. split; [|apply NoDup_singleton].
    intros k Hk Hnew. apply list_elem_of_singleton in Hnew.
    apply list_elem_of_fmap in Hk as (c & -> & Hc).
    pose proof (next_id_above _ _ Hc). cbn in Hnew. lia.
  - destruct (update_contact_table auth_service token update_body contact_id
                now w w1 A Hgate)
      as (_ & [-> | (i & c0 & c' & Hi & _ & Hid & _ & ->)]);
      [exact Hkeys|].
    rewrite list_fmap_insert, Hid, list_insert_id; [exact Hkeys|].
    rewrite list_lookup_fmap, Hi. reflexivity.
  - destruct (delete_contact_table auth_service token contact_id now w w1 A
                Hgate)
      as (_ & [-> | (i & c0 & _ & _ & _ & ->)]); [exact Hkeys|].
    rewrite list_fmap_delete.
    apply (sublist_NoDup _ (Contact.id <$> contacts w));
      first [apply sublist_delete | exact Hkeys].
Qed.

Lemma contact_ids_stay_distinct_witness :
  let marys_token :=
    services_auth.create_access_token Sample.service
      (Sample.sub "mary@x.com") None 1000 in
  let new_body :=
    ContactSchema.mk "John" "Doe" "john.doe@example.com" "1234567"
      "01.01.1990" "Some additional info" None in
  NoDup (Contact.id <$> contacts Sample.world)
  /\ NoDup (Contact.id <$>
              contacts (snd (routes_contacts.create_contact Sample.service
                               marys_token new_body 1001 Sample.world))).
Proof.
  cbv zeta.
  assert (NoDup (Contact.id <$> contacts Sample.world)) as Hkeys
    by apply NoDup_singleton.
  split; [exact Hkeys|].
  apply (contact_ids_stay_distinct Sample.service _ _
           (ContactUpdateSchema.mk "" "" "" "" "" "" false) 7 1001
           Sample.world
           (with_cache
              (insert "mary@x.com"
                 {| value := Sample.mary; expire_at := Some (1001 + 300) |})
              Sample.world)
           Sample.mary).
  - vm_compute. reflexivity.
  - exact Hkeys.
Defined.

(** ** The avatar and the cache *)



(** ** The search text of a listing *)

Lemma matches_query (ilike : string -> string -> bool) (q : string)
    (c : Contact.t) :
  q <> "" ->
  repository_contacts.matches ilike (Some q) c = true ->
  ilike (Contact.name c) ("%" +:+ q +:+ "%") = true
  \/ ilike (Contact.lastname c) ("%" +:+ q +:+ "%") = true
  \/ ilike (Contact.email c) ("%" +:+ q +:+ "%") = true.
Proof.
  intros Hq. unfold repository_contacts.matches.
  rewrite bool_decide_eq_false_2 by exact Hq.
  intros Hm. apply orb_true_iff in Hm as [Hm | Hm]; [|auto].
  apply orb_true_iff in Hm as [Hm | Hm]; auto.
Qed.

(** X22: the search text of the two listings. With a text that is not
    empty, every contact listed matches the pattern [%text%] in its name,
    its last name or its email, under the database's case-insensitive
    match. Without a text, and with the empty text, nothing is filtered:
    the caller's listing is the page of the caller's contacts and the
    listing of all contacts is the page of the whole table. *)
Theorem listing_query (ilike : string -> string -> bool) (limit offset : Z)
    (query : option string) (user : User.t) (w : World) :
  let own :=
    fst (repository_contacts.get_contacts ilike limit offset query user w) in
  let all :=
    fst (repository_contacts.get_all_contacts ilike limit offset query w) in
  (forall q l c,
     query = Some q -> q <> "" -> own = inr l \/ all = inr l -> c ∈ l ->
     ilike (Contact.name c) ("%" +:+ q +:+ "%") = true
     \/ ilike (Contact.lastname c) ("%" +:+ q +:+ "%") = true
     \/ ilike (Contact.email c) ("%" +:+ q +:+ "%") = true)
  /\
  (query = None \/ query = Some "" ->
   own = inr (repository_contacts.page limit offset
                (filter (fun c => repository_contacts.owned_by user c)
                   (contacts w)))
   /\ all = inr (repository_contacts.page limit offset (contacts w))).
Proof.
  cbv zeta.
  unfold repository_contacts.get_contacts,
    repository_contacts.get_all_contacts, gets. cbn [fst].
  split.
  - intros q l c -> Hq [Hl | Hl] Hc; injection Hl as <-;
      unfold repository_contacts.page in Hc;
      apply subseteq_take, subseteq_drop, list_elem_of_filter in Hc
        as [Hp _].
    + apply andb_prop_elim in Hp as [_ Hm].
      apply Is_true_true in Hm. exact (matches_query ilike q c Hq Hm).
    + apply Is_true_true in Hp. exact (matches_query ilike q c Hq Hp).
  - intros Hnone.
    assert (forall c, repository_contacts.matches ilike query c = true)
      as Hall by (intros c; destruct Hnone as [-> | ->]; reflexivity).
    split; f_equal; f_equal.
    + apply list_filter_iff. intros c. rewrite Hall, andb_true_r.
      reflexivity.
    + induction (contacts w) as [|c cs IH]; [reflexivity|].
      rewrite filter_cons_True by (rewrite Hall; exact I).
      f_equal. exact IH.
Qed.

Lemma listing_query_witness :
  let exact (column pattern : string) : bool :=
    bool_decide (pattern = "%" +:+ column +:+ "%") in
  fst (repository_contacts.get_all_contacts exact 10 0 (Some "Paul")
         Sample.world) = inr [Sample.marys_contact]
  /\ fst (repository_contacts.get_all_contacts exact 10 0 (Some "Mary")
            Sample.world) = inr []
  /\ fst (repository_contacts.get_all_contacts exact 10 0 (Some "")
            Sample.world) = inr [Sample.marys_contact].
Proof.
  cbv zeta. split; [reflexivity|]. split; [reflexivity|].
  destruct (listing_query
              (fun column pattern : string =>
                 bool_decide (pattern = "%" +:+ column +:+ "%"))
              10 0 (Some "") Sample.john Sample.world) as [_ Hempty].
  destruct Hempty as [_ Hall]; [right; reflexivity|].
  rewrite Hall. reflexivity.
Defined.
